(** * Starfield.js: a shallow embedding of the simulation engine

    The development follows [starfield.js] method by method.  JavaScript
    numbers are modelled as exact rationals ([Q]): every quantity of the
    simulation is finite, and arithmetic is carried out without rounding.
    The one place where the source inspects the dynamic type of a value
    (the [dprCap] option) uses a small type of JavaScript values that
    also has [NaN] and the two infinities.

    The instance ([this]) is a record passed explicitly; the host platform
    ([window], [document], the 2D context, [Math.random] and the frame
    scheduler) is a record threaded through a state monad. *)

From Stdlib Require Import QArith Qminmax Qround Lqa ZArith List Bool String Lia.
From Stdlib Require Import PrimFloat DecimalString.
Import ListNotations.

Open Scope Q_scope.

(** ** Numbers *)

(** [a < b] and [a > b] on numbers, as booleans. *)
Definition Qltb (a b : Q) : bool := negb (Qle_bool b a).
Definition Qgtb (a b : Q) : bool := Qltb b a.

(** A number is falsy exactly when it is zero (there is no NaN here). *)
Definition falsyNum (a : Q) : bool := Qeq_bool a 0.

(** [Math.floor] *)
Definition floor (a : Q) : Q := inject_Z (Qfloor a).

(** ** JavaScript values, for options whose type the source tests *)

Inductive jsnum : Type :=
| Fin (q : Q)
| NaN
| PosInf
| NegInf.

Inductive jsval : Type :=
| VUndefined
| VNull
| VBool (b : bool)
| VNum (n : jsnum)
| VStr (s : string)
| VObj.

(** [!!v] *)
Definition truthy (v : jsval) : bool :=
  match v with
  | VUndefined | VNull => false
  | VBool b => b
  | VNum (Fin q) => negb (Qeq_bool q 0)
  | VNum NaN => false
  | VNum _ => true
  | VStr s => negb (String.eqb s EmptyString)
  | VObj => true
  end.

(** [typeof v === "number"] *)
Definition isNumber (v : jsval) : bool :=
  match v with VNum _ => true | _ => false end.

(** [n > 0] on a number that may be NaN or infinite. *)
Definition jsnum_gt0 (n : jsnum) : bool :=
  match n with
  | Fin q => Qgtb q 0
  | PosInf => true
  | NaN | NegInf => false
  end.

(** ** Helpers of the source *)

(** Linear mapping helper used for projection math and line width. *)
Definition map (value istart istop ostart ostop : Q) : Q :=
  ostart + (ostop - ostart) * ((value - istart) / (istop - istart)).

(** Clamp helper. *)
Definition clamp (value min max : Q) : Q := Qmax min (Qmin max value).

(** ** Data model *)

Module Star.
Record t : Type := mk { x : Q; y : Q; z : Q; pz : Q }.
Definition set_z (s : t) (v : Q) : t := mk (x s) (y s) v (pz s).
Definition set_pz (s : t) (v : Q) : t := mk (x s) (y s) (z s) v.
End Star.

Inductive element : Type :=
| body
| documentElement
| node (id : nat).

Definition element_eqb (a b : element) : bool :=
  match a, b with
  | body, body => true
  | documentElement, documentElement => true
  | node i, node j => Nat.eqb i j
  | _, _ => false
  end.

(** The [target] option: nothing (null, undefined or another falsy value),
    a selector string, an element, or some other truthy value. *)
Inductive targetOption : Type :=
| TNone
| TSelector (sel : string)
| TElement (e : element)
| TOther.

Module Opt.
Record t : Type := mk {
  target : targetOption;
  fullPage : jsval;
  autostart : bool;
  zIndex : Z;
  backgroundColor : string;
  starColor : string;
  starCount : nat;
  speed : Q;
  trailLength : Q;
  mobileSpeedMultiplier : Q;
  desktopSpeedMultiplier : Q;
  mobileTrailMultiplier : Q;
  desktopTrailMultiplier : Q;
  mobileBreakpoint : Q;
  dprCap : jsval
}.
End Opt.

(** Default options. *)
Definition DEFAULTS : Opt.t :=
  Opt.mk TNone (VBool true) true (-1)%Z "#000000" "#FFFFFF" 800
         10 10 (1#2) (11#10) (13#20) 1 900 (VNum (Fin 2)).

(** The object a caller passes to [new Starfield({...})]: each property
    is either absent ([None]) or present with a value. *)
Module UserOpt.
Record t : Type := mk {
  target : option targetOption;
  fullPage : option jsval;
  autostart : option bool;
  zIndex : option Z;
  backgroundColor : option string;
  starColor : option string;
  starCount : option nat;
  speed : option Q;
  trailLength : option Q;
  mobileSpeedMultiplier : option Q;
  desktopSpeedMultiplier : option Q;
  mobileTrailMultiplier : option Q;
  desktopTrailMultiplier : option Q;
  mobileBreakpoint : option Q;
  dprCap : option jsval
}.

(** The empty object [{}]. *)
Definition empty : t :=
  mk None None None None None None None None None None None None None None None.
End UserOpt.

Definition over {A : Type} (dflt : A) (o : option A) : A :=
  match o with Some v => v | None => dflt end.

(** [Object.assign({}, d, u)] *)
Definition assign (d : Opt.t) (u : UserOpt.t) : Opt.t :=
  Opt.mk
    (over (Opt.target d) (UserOpt.target u))
    (over (Opt.fullPage d) (UserOpt.fullPage u))
    (over (Opt.autostart d) (UserOpt.autostart u))
    (over (Opt.zIndex d) (UserOpt.zIndex u))
    (over (Opt.backgroundColor d) (UserOpt.backgroundColor u))
    (over (Opt.starColor d) (UserOpt.starColor u))
    (over (Opt.starCount d) (UserOpt.starCount u))
    (over (Opt.speed d) (UserOpt.speed u))
    (over (Opt.trailLength d) (UserOpt.trailLength u))
    (over (Opt.mobileSpeedMultiplier d) (UserOpt.mobileSpeedMultiplier u))
    (over (Opt.desktopSpeedMultiplier d) (UserOpt.desktopSpeedMultiplier u))
    (over (Opt.mobileTrailMultiplier d) (UserOpt.mobileTrailMultiplier u))
    (over (Opt.desktopTrailMultiplier d) (UserOpt.desktopTrailMultiplier u))
    (over (Opt.mobileBreakpoint d) (UserOpt.mobileBreakpoint u))
    (over (Opt.dprCap d) (UserOpt.dprCap u)).

(** The instance.  The canvas element, its styles and the listener
    bookkeeping are DOM plumbing and are not part of the record; the 2D
    context is reached through the platform. *)
Record Starfield : Type := mkStarfield {
  options : Opt.t;
  target : element;
  fullPage : bool;
  stars : list Star.t;
  width : Q;
  height : Q;
  centerX : Q;
  centerY : Q;
  maxDepth : Q;
  speedMultiplier : Q;
  trailLength : Q;
  lastTime : Q;
  running : bool;
  rafId : option nat
}.

Definition set_stars (s : Starfield) (v : list Star.t) : Starfield :=
  mkStarfield (options s) (target s) (fullPage s) v (width s) (height s)
    (centerX s) (centerY s) (maxDepth s) (speedMultiplier s) (trailLength s)
    (lastTime s) (running s) (rafId s).

Definition set_size (s : Starfield) (w h : Q) : Starfield :=
  mkStarfield (options s) (target s) (fullPage s) (stars s) w h
    (centerX s) (centerY s) (maxDepth s) (speedMultiplier s) (trailLength s)
    (lastTime s) (running s) (rafId s).

Definition set_center (s : Starfield) (cx cy : Q) : Starfield :=
  mkStarfield (options s) (target s) (fullPage s) (stars s) (width s) (height s)
    cx cy (maxDepth s) (speedMultiplier s) (trailLength s)
    (lastTime s) (running s) (rafId s).

Definition set_maxDepth (s : Starfield) (v : Q) : Starfield :=
  mkStarfield (options s) (target s) (fullPage s) (stars s) (width s) (height s)
    (centerX s) (centerY s) v (speedMultiplier s) (trailLength s)
    (lastTime s) (running s) (rafId s).

Definition set_speedMultiplier (s : Starfield) (v : Q) : Starfield :=
  mkStarfield (options s) (target s) (fullPage s) (stars s) (width s) (height s)
    (centerX s) (centerY s) (maxDepth s) v (trailLength s)
    (lastTime s) (running s) (rafId s).

Definition set_trailLength (s : Starfield) (v : Q) : Starfield :=
  mkStarfield (options s) (target s) (fullPage s) (stars s) (width s) (height s)
    (centerX s) (centerY s) (maxDepth s) (speedMultiplier s) v
    (lastTime s) (running s) (rafId s).

Definition set_lastTime (s : Starfield) (v : Q) : Starfield :=
  mkStarfield (options s) (target s) (fullPage s) (stars s) (width s) (height s)
    (centerX s) (centerY s) (maxDepth s) (speedMultiplier s) (trailLength s)
    v (running s) (rafId s).

Definition set_running (s : Starfield) (v : bool) : Starfield :=
  mkStarfield (options s) (target s) (fullPage s) (stars s) (width s) (height s)
    (centerX s) (centerY s) (maxDepth s) (speedMultiplier s) (trailLength s)
    (lastTime s) v (rafId s).

Definition set_rafId (s : Starfield) (v : option nat) : Starfield :=
  mkStarfield (options s) (target s) (fullPage s) (stars s) (width s) (height s)
    (centerX s) (centerY s) (maxDepth s) (speedMultiplier s) (trailLength s)
    (lastTime s) (running s) v.

(** ** The platform *)

(** What the 2D context was asked to paint. *)
Inductive drawOp : Type :=
| FillRect (fillStyle : string) (x0 y0 w h : Q)
| Stroke (strokeStyle : string) (lineWidth : Q) (px py sx sy : Q).

Record Global : Type := mkGlobal {
  innerWidth : Q;
  innerHeight : Q;
  (* matchMedia("(pointer: coarse)").matches *)
  pointerCoarse : bool;
  (* window.devicePixelRatio; None when the host does not define it *)
  devicePixelRatio : option Q;
  (* document.querySelector *)
  querySelector : string -> option element;
  (* width and height of element.getBoundingClientRect() *)
  boundingRect : element -> Q * Q;
  (* whether canvas.getContext("2d") yields a context *)
  contextAvailable : bool;
  (* the values Math.random() returns, and how many were taken *)
  randomSeq : nat -> Q;
  randomPos : nat;
  (* requestAnimationFrame: next handle, and the handles still pending *)
  rafNext : nat;
  rafPending : list nat;
  (* canvas backing store and context *)
  canvasWidth : Q;
  canvasHeight : Q;
  ctxScale : Q;
  painted : list drawOp
}.

Definition set_randomPos (g : Global) (v : nat) : Global :=
  mkGlobal (innerWidth g) (innerHeight g) (pointerCoarse g) (devicePixelRatio g)
    (querySelector g) (boundingRect g) (contextAvailable g) (randomSeq g) v
    (rafNext g) (rafPending g) (canvasWidth g) (canvasHeight g) (ctxScale g)
    (painted g).

Definition set_raf (g : Global) (next : nat) (pending : list nat) : Global :=
  mkGlobal (innerWidth g) (innerHeight g) (pointerCoarse g) (devicePixelRatio g)
    (querySelector g) (boundingRect g) (contextAvailable g) (randomSeq g)
    (randomPos g) next pending (canvasWidth g) (canvasHeight g) (ctxScale g)
    (painted g).

Definition set_canvas (g : Global) (w h k : Q) : Global :=
  mkGlobal (innerWidth g) (innerHeight g) (pointerCoarse g) (devicePixelRatio g)
    (querySelector g) (boundingRect g) (contextAvailable g) (randomSeq g)
    (randomPos g) (rafNext g) (rafPending g) w h k (painted g).

Definition set_painted (g : Global) (v : list drawOp) : Global :=
  mkGlobal (innerWidth g) (innerHeight g) (pointerCoarse g) (devicePixelRatio g)
    (querySelector g) (boundingRect g) (contextAvailable g) (randomSeq g)
    (randomPos g) (rafNext g) (rafPending g) (canvasWidth g) (canvasHeight g)
    (ctxScale g) v.

(** Platform effects are threaded through a state monad over [Global]. *)
Definition M (A : Type) : Type := Global -> A * Global.

Definition ret {A : Type} (a : A) : M A := fun g => (a, g).

Definition bind {A B : Type} (m : M A) (k : A -> M B) : M B :=
  fun g => let (a, g') := m g in k a g'.

Notation "x <- m ;; k" := (bind m (fun x => k))
  (at level 61, m at next level, right associativity).
Notation "m ;;; k" := (bind m (fun _ => k))
  (at level 61, right associativity).

Definition gets {A : Type} (f : Global -> A) : M A := fun g => (f g, g).

Fixpoint mapM {A B : Type} (f : A -> M B) (l : list A) : M (list B) :=
  match l with
  | [] => ret []
  | a :: l' => b <- f a ;; bs <- mapM f l' ;; ret (b :: bs)
  end.

(** [Math.random()] *)
Definition random : M Q :=
  fun g => (randomSeq g (randomPos g), set_randomPos g (S (randomPos g))).

(** [requestAnimationFrame(cb)]: a fresh handle, now pending. *)
Definition requestAnimationFrame : M nat :=
  fun g => (rafNext g,
            set_raf g (S (rafNext g)) (rafPending g ++ [rafNext g])).

(** [cancelAnimationFrame(id)] *)
Definition cancelAnimationFrame (id : nat) : M unit :=
  fun g => (tt, set_raf g (rafNext g)
                  (filter (fun h => negb (Nat.eqb h id)) (rafPending g))).

Definition paint (op : drawOp) : M unit :=
  fun g => (tt, set_painted g (painted g ++ [op])).

(** ** Construction-time errors *)

Inductive error : Type :=
| TargetNotFound (sel : string)
| TargetInvalid
| NoContext.

Inductive result (A : Type) : Type :=
| Ok (a : A)
| Throw (e : error).
Arguments Ok {A} a.
Arguments Throw {A} e.

(** Resolve the [target] option into an element. *)
Definition resolveTarget (g : Global) (t : targetOption) : result element :=
  match t with
  | TNone => Ok body
  | TSelector sel =>
      (* the empty string is falsy and takes the first branch *)
      if String.eqb sel EmptyString then Ok body
      else
        match querySelector g sel with
        | None => Throw (TargetNotFound sel)
        | Some e => Ok e
        end
  | TElement e => Ok e
  | TOther => Throw TargetInvalid
  end.

(** ** Methods *)

(** Mobile detection: coarse pointer OR small viewport side below
    [mobileBreakpoint]. *)
Definition isMobileViewport (self : Starfield) (g : Global) : bool :=
  pointerCoarse g ||
  Qltb (Qmin (innerWidth g) (innerHeight g)) (Opt.mobileBreakpoint (options self)).

(** [global.devicePixelRatio || 1] *)
Definition nativeDpr (g : Global) : Q :=
  match devicePixelRatio g with
  | Some d => if falsyNum d then 1 else d
  | None => 1
  end.

(** Effective DPR with optional cap. *)
Definition getDpr (self : Starfield) (g : Global) : Q :=
  let dpr := nativeDpr g in
  let cap := Opt.dprCap (options self) in
  match cap with
  | VNum n =>
      if jsnum_gt0 n
      then match n with
           | Fin q => Qmin dpr q
           | _ => dpr            (* Math.min(dpr, Infinity) *)
           end
      else dpr
  | _ => dpr
  end.

(** Reset a star: random spread around the centre, random depth on the
    initial fill and [maxDepth] on recycle, [pz] mirrors [z]. *)
Definition resetStar (self : Starfield) (star : Star.t) (initial : bool)
  : M Star.t :=
  z <- (if initial
        then r <- random ;; ret (r * maxDepth self)
        else ret (maxDepth self)) ;;
  rx <- random ;;
  ry <- random ;;
  ret (Star.mk ((rx * width self - width self / 2) * 2)
               ((ry * height self - height self / 2) * 2)
               z z).

(** Create one star object. *)
Definition createStar (self : Starfield) (initial : bool) : M Star.t :=
  resetStar self (Star.mk 0 0 0 0) initial.

Fixpoint pushStars (self : Starfield) (n : nat) (acc : list Star.t)
  : M (list Star.t) :=
  match n with
  | O => ret acc
  | S n' => s <- createStar self true ;; pushStars self n' (acc ++ [s])
  end.

(** Build the initial star pool. *)
Definition initStars (self : Starfield) : M Starfield :=
  l <- pushStars self (Opt.starCount (options self)) [] ;;
  ret (set_stars self l).

(** 3D -> 2D projection helpers. *)
Definition projectX (self : Starfield) (x z : Q) : Q :=
  map (x / z) 0 1 0 (width self / 2) + centerX self.

Definition projectY (self : Starfield) (y z : Q) : Q :=
  map (y / z) 0 1 0 (height self / 2) + centerY self.

(** Screen bounds test. *)
Definition isOffscreen (self : Starfield) (x y : Q) : bool :=
  Qltb x 0 || Qgtb x (width self) || Qltb y 0 || Qgtb y (height self).

(** Physics update for one star.  The boolean is [true] if the star
    should be drawn this frame, [false] if it was recycled. *)
Definition updateStar (self : Starfield) (star : Star.t) (frameScale : Q)
  : M (Star.t * bool) :=
  let star :=
    Star.set_z star
      (Star.z star
       - Opt.speed (options self) * speedMultiplier self * frameScale) in
  if Qltb (Star.z star) 1
  then s <- resetStar self star false ;; ret (s, false)
  else
    let sx := projectX self (Star.x star) (Star.z star) in
    let sy := projectY self (Star.y star) (Star.z star) in
    if isOffscreen self sx sy
    then s <- resetStar self star false ;; ret (s, false)
    else ret (star, true).

(** Draw one star as a streak, then persist the depth for the next
    frame's trail origin. *)
Definition drawStar (self : Starfield) (star : Star.t) : M Star.t :=
  let sx := projectX self (Star.x star) (Star.z star) in
  let sy := projectY self (Star.y star) (Star.z star) in
  let trailZ := Qmin (maxDepth self) (Star.pz star + trailLength self) in
  let px := projectX self (Star.x star) trailZ in
  let py := projectY self (Star.y star) trailZ in
  paint (Stroke (Opt.starColor (options self))
                (clamp (map (Star.z star) 0 (maxDepth self) 3 0) (1#10) 3)
                px py sx sy) ;;;
  ret (Star.set_pz star (Star.z star)).

(** The first half of [resize]: width, height, centre, depth and the
    device multipliers, read off the platform. *)
Definition measure (self : Starfield) (g : Global) : Starfield :=
  let self :=
    if fullPage self
    then set_size self (innerWidth g) (innerHeight g)
    else
      let rect := boundingRect g (target self) in
      set_size self (Qmax 1 (floor (fst rect))) (Qmax 1 (floor (snd rect))) in
  let self := set_center self (width self / 2) (height self / 2) in
  let self := set_maxDepth self (Qmax (width self) (height self)) in
  let mobile := isMobileViewport self g in
  let self :=
    set_speedMultiplier self
      (if mobile
       then Opt.mobileSpeedMultiplier (options self)
       else Opt.desktopSpeedMultiplier (options self)) in
  set_trailLength self
    (Opt.trailLength (options self)
     * (if mobile
        then Opt.mobileTrailMultiplier (options self)
        else Opt.desktopTrailMultiplier (options self))).

(** [canvas.width], [canvas.height] and [ctx.setTransform(dpr, 0, 0, dpr, 0, 0)] *)
Definition sizeCanvas (w h dpr : Q) : M unit :=
  fun g => (tt, set_canvas g w h dpr).

(** Recompute canvas metrics, DPR backing size and device multipliers,
    then reseed the stars. *)
Definition resize (self : Starfield) : M Starfield :=
  g <- gets (fun g => g) ;;
  let self := measure self g in
  let dpr := getDpr self g in
  sizeCanvas (floor (width self * dpr)) (floor (height self * dpr)) dpr ;;;
  l <- mapM (fun star => resetStar self star true) (stars self) ;;
  ret (set_stars self l).

(** The timing lines of [animate]: the instance with its stored
    timestamp updated, the capped delta and the movement scale. *)
Definition tickTiming (self : Starfield) (timestamp : Q)
  : Starfield * Q * Q :=
  let self :=
    if falsyNum (lastTime self) then set_lastTime self timestamp else self in
  (* Cap long frame gaps. *)
  let deltaMs := Qmin 64 (timestamp - lastTime self) in
  let self := set_lastTime self timestamp in
  (* Normalize movement to a 60fps baseline. *)
  let frameScale := deltaMs / (1000 / 60) in
  (self, deltaMs, frameScale).

Definition tickDeltaMs (self : Starfield) (timestamp : Q) : Q :=
  snd (fst (tickTiming self timestamp)).

Definition tickFrameScale (self : Starfield) (timestamp : Q) : Q :=
  snd (tickTiming self timestamp).

(** Body of the update/draw loop for one star. *)
Definition animateStar (self : Starfield) (frameScale : Q) (star : Star.t)
  : M Star.t :=
  r <- updateStar self star frameScale ;;
  if snd r then drawStar self (fst r) else ret (fst r).

(** Main animation loop; [timestamp] comes from requestAnimationFrame. *)
Definition animate (self : Starfield) (timestamp : Q) : M Starfield :=
  if negb (running self) then ret self
  else
    let '(self, deltaMs, frameScale) := tickTiming self timestamp in
    (* Paint background first. *)
    paint (FillRect (Opt.backgroundColor (options self))
                    0 0 (width self) (height self)) ;;;
    (* Update/draw each star. *)
    l <- mapM (animateStar self frameScale) (stars self) ;;
    id <- requestAnimationFrame ;;
    ret (set_rafId (set_stars self l) (Some id)).

(** Start animation loop. *)
Definition start (self : Starfield) : M Starfield :=
  if running self then ret self
  else
    let self := set_running self true in
    let self := set_lastTime self 0 in
    id <- requestAnimationFrame ;;
    ret (set_rafId self (Some id)).

(** Pause animation loop. *)
Definition stop (self : Starfield) : M Starfield :=
  if negb (running self) then ret self
  else
    let self := set_running self false in
    match rafId self with
    | Some id => cancelAnimationFrame id ;;; ret (set_rafId self None)
    | None => ret self
    end.

(** The platform delivers a pending frame callback: the handle leaves the
    pending set and [animate] runs with the frame's timestamp. *)
Definition frame (self : Starfield) (timestamp : Q) : M Starfield :=
  fun g =>
    match rafPending g with
    | [] => (self, g)
    | _ :: rest => animate self timestamp (set_raf g (rafNext g) rest)
    end.

(** [options && hasOwnProperty.call(options, "fullPage")] *)
Definition hasOwnFullPage (opts : option UserOpt.t) : bool :=
  match opts with
  | Some u => match UserOpt.fullPage u with Some _ => true | None => false end
  | None => false
  end.

(** The value of [this.fullPage]: if the caller explicitly set
    [fullPage], respect it; otherwise auto-detect, a body/html target
    implies full-page mode. *)
Definition resolveFullPage (opts : option UserOpt.t) (tgt : element) : bool :=
  let auto := element_eqb tgt body || element_eqb tgt documentElement in
  match opts with
  | Some u =>
      match UserOpt.fullPage u with
      | Some v => truthy v
      | None => auto
      end
  | None => auto
  end.

(** The fields as the constructor first assigns them. *)
Definition blank (options : Opt.t) (tgt : element) (fp : bool) : Starfield :=
  mkStarfield options tgt fp [] 0 0 0 0 0
    (Opt.desktopSpeedMultiplier options)
    (Opt.trailLength options * Opt.desktopTrailMultiplier options)
    0 false None.

(** [new Starfield(options)].  [applyCanvasStyles], [mountCanvas] and
    [attachListeners] only touch the DOM and are left out. *)
Definition newStarfield (opts : option UserOpt.t) : M (result Starfield) :=
  g <- gets (fun g => g) ;;
  let options :=
    assign DEFAULTS (match opts with Some u => u | None => UserOpt.empty end) in
  match resolveTarget g (Opt.target options) with
  | Throw e => ret (Throw e)
  | Ok tgt =>
      let fp := resolveFullPage opts tgt in
      if negb (contextAvailable g) then ret (Throw NoContext)
      else
        let self := blank options tgt fp in
        self <- initStars self ;;
        self <- resize self ;;
        if Opt.autostart options
        then self <- start self ;; ret (Ok self)
        else ret (Ok self)
  end.

(** ** Driving an instance

    What can happen to a constructed instance: a public method is called,
    the platform delivers a frame, or the viewport changes under it. *)
Inductive event : Type :=
| Start
| Stop
| Resize
| Frame (timestamp : Q)
| Viewport (w h : Q) (coarse : bool).

Definition set_viewport (g : Global) (w h : Q) (coarse : bool) : Global :=
  mkGlobal w h coarse (devicePixelRatio g)
    (querySelector g) (boundingRect g) (contextAvailable g) (randomSeq g)
    (randomPos g) (rafNext g) (rafPending g) (canvasWidth g) (canvasHeight g)
    (ctxScale g) (painted g).

Definition step (self : Starfield) (e : event) : M Starfield :=
  match e with
  | Start => start self
  | Stop => stop self
  | Resize => resize self
  | Frame t => frame self t
  | Viewport w h c => fun g => (self, set_viewport g w h c)
  end.

Fixpoint run (self : Starfield) (es : list event) : M Starfield :=
  match es with
  | [] => ret self
  | e :: es' => self' <- step self e ;; run self' es'
  end.

(** [n] consecutive calls of [animate], one per timestamp. *)
Fixpoint ticks (self : Starfield) (ts : list Q) : M Starfield :=
  match ts with
  | [] => ret self
  | t :: ts' => self' <- animate self t ;; ticks self' ts'
  end.


(** ** Notions used in the statements *)

(** The depth a star has after the decrement of [updateStar]. *)
Definition movedZ (self : Starfield) (star : Star.t) (frameScale : Q) : Q :=
  Star.z star - Opt.speed (options self) * speedMultiplier self * frameScale.

(** The recycling test of [updateStar] on the moved star. *)
Definition leavesView (self : Starfield) (star : Star.t) (frameScale : Q) : bool :=
  let z' := movedZ self star frameScale in
  Qltb z' 1 ||
  isOffscreen self (projectX self (Star.x star) z') (projectY self (Star.y star) z').

(** A star whose trail anchor is its own depth. *)
Definition anchored (st : Star.t) : Prop := Star.pz st = Star.z st.

(** The scheduler is consistent with the instance: a running instance
    holds the handle of the one pending frame callback, a stopped one has
    none pending. *)
Definition scheduled (self : Starfield) (g : Global) : Prop :=
  if running self
  then exists id, rafId self = Some id /\ rafPending g = [id]
  else rafPending g = [].

(** The viewport fields are consistent: non-negative sides and the centre
    in the middle, as [resize] leaves them on a non-negative viewport. *)
Definition centred (self : Starfield) : Prop :=
  0 <= width self /\ 0 <= height self /\
  centerX self == width self / 2 /\ centerY self == height self / 2.

(** A star resting on the axis of view, at a depth that does not trigger
    recycling. *)
Definition onAxis (st : Star.t) : Prop :=
  Star.x st == 0 /\ Star.y st == 0 /\ 1 <= Star.z st.

(** The depth at which [drawStar] anchors the trail of a star. *)
Definition trailDepth (self : Starfield) (st : Star.t) : Q :=
  Qmin (maxDepth self) (Star.pz st + trailLength self).

(** A stroke whose two ends are both at the point [(cx, cy)]. *)
Definition strokeAt (cx cy : Q) (op : drawOp) : Prop :=
  match op with
  | Stroke _ _ px py sx sy => px == cx /\ py == cy /\ sx == cx /\ sy == cy
  | FillRect _ _ _ _ _ => False
  end.

(** The paint log of [n] frames of a one-star pool, each a background
    fill followed by one stroke at [(cx, cy)]. *)
Inductive framesAt (cx cy : Q) : nat -> list drawOp -> Prop :=
| framesAt_nil : framesAt cx cy 0 []
| framesAt_cons (n : nat) (bg : string) (w h : Q) (op : drawOp) (rest : list drawOp) :
    strokeAt cx cy op ->
    framesAt cx cy n rest ->
    framesAt cx cy (S n) (FillRect bg 0 0 w h :: op :: rest).

(** Timestamps that never run backwards, starting from [last]. *)
Fixpoint monotone (last : Q) (ts : list Q) : Prop :=
  match ts with
  | [] => True
  | t :: ts' => last <= t /\ monotone t ts'
  end.

(** The timestamps handed to an instance never run backwards: the first
    is not before the stored one (if one is stored), and the rest follow
    in order. *)
Definition timestampsFrom (self : Starfield) (ts : list Q) : Prop :=
  match ts with
  | [] => True
  | t :: ts' =>
      (falsyNum (lastTime self) = true \/ lastTime self <= t) /\ monotone t ts'
  end.

(** [Math.random()] stays within [0, 1). *)
Definition randomInRange (g : Global) : Prop :=
  forall n, 0 <= randomSeq g n /\ randomSeq g n < 1.

(** ** Sample platforms and instances *)

(** A fresh page with a [w] x [h] window, a device pixel ratio of 2, no
    element matching any selector, every element 500 x 800, and [rs] as
    the values of [Math.random()]. *)
Definition sampleGlobalSeq (w h : Q) (coarse : bool) (rs : nat -> Q) : Global :=
  mkGlobal w h coarse (Some 2) (fun _ => None) (fun _ => (500, 800)) true
           rs 0 0 [] 0 0 1 [].

Definition sampleGlobal (w h : Q) (coarse : bool) (r : Q) : Global :=
  sampleGlobalSeq w h coarse (fun _ => r).

(** Construction from an options object, when it succeeds. *)
Definition construct (u : UserOpt.t) (g : Global) : option (Starfield * Global) :=
  match newStarfield (Some u) g with
  | (Ok self, g') => Some (self, g')
  | (Throw _, _) => None
  end.

(** Caller options that set the pool size and the base speed only. *)
Definition userOptions (count : nat) (speed : Q) : UserOpt.t :=
  UserOpt.mk None None None None None None (Some count) (Some speed)
             None None None None None None None.

(** Caller options that name a container element and nothing else. *)
Definition containerOptions (e : element) : UserOpt.t :=
  UserOpt.mk (Some (TElement e)) None None None None None None None
             None None None None None None None.

(** A running full-page instance on an 800x600 desktop viewport. *)
Definition sampleSelf (speed : Q) (pool : list Star.t) (last : Q) : Starfield :=
  mkStarfield (assign DEFAULTS (userOptions (List.length pool) speed))
              body true pool 800 600 400 300 800 (11#10) 10 last true (Some 0%nat).

(** The sample instance just after [start()] on a fresh desktop page. *)
Definition startedSample : Starfield * Global :=
  start (set_rafId (set_running (sampleSelf 10 [Star.mk 0 0 400 400] 0) false) None)
        (sampleGlobal 800 600 false (1#2)).

(** The instance the constructor builds from [{starCount: 1, speed: 10}]
    on a fresh 800x600 page; the fallback is never taken. *)
Definition builtSample : Starfield * Global :=
  match newStarfield (Some (userOptions 1 10)) (sampleGlobal 800 600 false (1#2)) with
  | (Ok self, g) => (self, g)
  | (Throw _, g) => (blank DEFAULTS body true, g)
  end.

(** ** The document

    The DOM side of an instance: the canvas element with its inline
    styles and parent, the inline and computed [position] of elements, and
    the resize notifications the instance subscribes to.  It is kept apart
    from the simulation state, which none of it reads or writes. *)

Module Style.
(** The inline style properties of the canvas the source assigns; an
    unset property is the empty string. *)
Record t : Type := mk {
  display : string;
  pointerEvents : string;
  zIndex : string;
  position : string;
  inset : string;
  width : string;
  height : string
}.
Definition unset : t :=
  mk EmptyString EmptyString EmptyString EmptyString EmptyString
     EmptyString EmptyString.
End Style.

Record Dom : Type := mkDom {
  (* element.style.position *)
  inlinePosition : element -> string;
  (* getComputedStyle(element).position, before the instance touched it *)
  computedPosition : element -> string;
  (* whether global.ResizeObserver is defined *)
  resizeObserverSupported : bool;
  (* canvas.style *)
  canvasStyle : Style.t;
  (* canvas.parentNode *)
  canvasParent : option element;
  (* whether onResize is registered for the window's "resize" event *)
  resizeListener : bool;
  (* the elements observed by the instance's current ResizeObserver *)
  observed : list element
}.

Definition set_inlinePosition (d : Dom) (e : element) (v : string) : Dom :=
  mkDom (fun e' => if element_eqb e' e then v else inlinePosition d e')
        (computedPosition d) (resizeObserverSupported d) (canvasStyle d)
        (canvasParent d) (resizeListener d) (observed d).

Definition set_canvasStyle (d : Dom) (v : Style.t) : Dom :=
  mkDom (inlinePosition d) (computedPosition d) (resizeObserverSupported d) v
        (canvasParent d) (resizeListener d) (observed d).

Definition set_canvasParent (d : Dom) (v : option element) : Dom :=
  mkDom (inlinePosition d) (computedPosition d) (resizeObserverSupported d)
        (canvasStyle d) v (resizeListener d) (observed d).

Definition set_resizeListener (d : Dom) (v : bool) : Dom :=
  mkDom (inlinePosition d) (computedPosition d) (resizeObserverSupported d)
        (canvasStyle d) (canvasParent d) v (observed d).

Definition set_observed (d : Dom) (v : list element) : Dom :=
  mkDom (inlinePosition d) (computedPosition d) (resizeObserverSupported d)
        (canvasStyle d) (canvasParent d) (resizeListener d) v.

(** The resize/listener bookkeeping fields of the instance:
    [resizeObserver] (null or an observer), [mutatedTargetPosition] and
    [originalTargetPosition]. *)
Record Plumbing : Type := mkPlumbing {
  resizeObserver : bool;
  mutatedTargetPosition : bool;
  originalTargetPosition : string
}.

(** The bookkeeping as the constructor first assigns it. *)
Definition noPlumbing : Plumbing := mkPlumbing false false EmptyString.

(** [String(n)] for an integer. *)
Definition stringOfZ (n : Z) : string := NilZero.string_of_int (Z.to_int n).

(** Apply all required canvas styles.  Full-page mode uses fixed viewport
    sizing; container mode pins the canvas inside the target, promoting a
    [position: static] target to [relative]. *)
Definition applyCanvasStyles (self : Starfield) (p : Plumbing) (d : Dom)
  : Plumbing * Dom :=
  let zi := stringOfZ (Opt.zIndex (options self)) in
  if fullPage self
  then (p, set_canvasStyle d (Style.mk "block" "none" zi "fixed" "0" "100vw" "100vh"))
  else
    let computed := computedPosition d (target self) in
    let '(p, d) :=
      if String.eqb computed "static"
      then (mkPlumbing (resizeObserver p) true (inlinePosition d (target self)),
            set_inlinePosition d (target self) "relative")
      else (p, d) in
    (p, set_canvasStyle d (Style.mk "block" "none" zi "absolute" "0" "100%" "100%")).

(** Attach canvas to target. *)
Definition mountCanvas (self : Starfield) (d : Dom) : Dom :=
  set_canvasParent d (Some (target self)).

(** Listen for environment size changes: always the window's resize
    event; in container mode also the target element, through a new
    ResizeObserver if the platform has one. *)
Definition attachListeners (self : Starfield) (p : Plumbing) (d : Dom)
  : Plumbing * Dom :=
  let d := set_resizeListener d true in
  if negb (fullPage self) && resizeObserverSupported d
  then (mkPlumbing true (mutatedTargetPosition p) (originalTargetPosition p),
        set_observed d [target self])
  else (p, d).

(** Remove event observers/listeners. *)
Definition detachListeners (p : Plumbing) (d : Dom) : Plumbing * Dom :=
  let d := set_resizeListener d false in
  if resizeObserver p
  then (mkPlumbing false (mutatedTargetPosition p) (originalTargetPosition p),
        set_observed d [])
  else (p, d).

(** Fully tear down the instance: stop the loop, remove the listeners,
    remove the canvas, restore the target's inline position if it was
    mutated. *)
Definition destroy (self : Starfield) (p : Plumbing) (g : Global) (d : Dom)
  : (Starfield * Plumbing) * (Global * Dom) :=
  let '(self, g) := stop self g in
  let '(p, d) := detachListeners p d in
  let d :=
    match canvasParent d with
    | Some _ => set_canvasParent d None
    | None => d
    end in
  let '(p, d) :=
    if mutatedTargetPosition p
    then (mkPlumbing (resizeObserver p) false (originalTargetPosition p),
          set_inlinePosition d (target self) (originalTargetPosition p))
    else (p, d) in
  ((self, p), (g, d)).

(** The DOM steps of the constructor, in the order it takes them
    ([initStars] and [resize], which run between them, touch neither the
    document nor the bookkeeping). *)
Definition setUpDom (self : Starfield) (d : Dom) : Plumbing * Dom :=
  let '(p, d) := applyCanvasStyles self noPlumbing d in
  let d := mountCanvas self d in
  attachListeners self p d.

(** A document in which the instance's canvas has just been created:
    no styles, no parent, nothing subscribed. *)
Definition freshCanvas (d : Dom) : Prop :=
  canvasStyle d = Style.unset /\ canvasParent d = None /\
  resizeListener d = false /\ observed d = [].

(** A sample document: every element statically positioned with no
    inline position, ResizeObserver available, a fresh canvas. *)
Definition sampleDom : Dom :=
  mkDom (fun _ => EmptyString) (fun _ => "static"%string) true
        Style.unset None false [].

(** A paint operation that is a stroke. *)
Definition isStroke (op : drawOp) : Prop :=
  match op with
  | Stroke _ _ _ _ _ _ => True
  | FillRect _ _ _ _ _ => False
  end.

(** The stars of a pool that a frame of scale [fs] keeps (does not
    recycle), in pool order. *)
Definition keptStars (self : Starfield) (fs : Q) (pool : list Star.t) : list Star.t :=
  filter (fun st => negb (leavesView self st fs)) pool.

(** * Verification *)

(** ** Arithmetic on numbers *)

(** Constant divisors of the source, folded for linear arithmetic. *)
Ltac qconst :=
  unfold Qdiv in *;
  change (/ 2) with (1 # 2) in *;
  change (/ (1000 * / 60)) with (60 # 1000) in *.

Lemma Qltb_lt (a b : Q) : Qltb a b = true <-> a < b.
Proof.
  unfold Qltb. rewrite negb_true_iff, <- not_true_iff_false, Qle_bool_iff.
  split; [apply Qnot_le_lt | apply Qlt_not_le].
Qed.

Lemma Qltb_ge (a b : Q) : Qltb a b = false <-> b <= a.
Proof.
  unfold Qltb. rewrite negb_false_iff. apply Qle_bool_iff.
Qed.

(** ** The platform monad *)

Section MapM.
Context {A B : Type} (f : A -> M B).

Lemma mapM_cons (a : A) (l : list A) (g : Global) :
  mapM f (a :: l) g =
  (fst (f a g) :: fst (mapM f l (snd (f a g))),
   snd (mapM f l (snd (f a g)))).
Proof.
  simpl. unfold bind, ret. destruct (f a g) as [b g1]. simpl.
  destruct (mapM f l g1) as [bs g2]. reflexivity.
Qed.

Lemma mapM_Forall (P : A -> Prop) (R : B -> Prop) :
  (forall a g, P a -> R (fst (f a g))) ->
  forall l g, Forall P l -> Forall R (fst (mapM f l g)).
Proof.
  intros Hf l. induction l as [|a l IH]; intros g Hl.
  - constructor.
  - rewrite mapM_cons. simpl. inversion Hl; subst.
    constructor; [apply Hf; assumption | apply IH; assumption].
Qed.

Lemma mapM_keeps {X : Type} (p : Global -> X) :
  (forall a g, p (snd (f a g)) = p g) ->
  forall l g, p (snd (mapM f l g)) = p g.
Proof.
  intros Hf l. induction l as [|a l IH]; intro g; [reflexivity|].
  rewrite mapM_cons. simpl. now rewrite IH, Hf.
Qed.

End MapM.

Section MapMInvariant.
Context {A B : Type} (f : A -> M B).
Variable I : Global -> Prop.
Variable R : B -> Prop.
Hypothesis f_step : forall a g, I g -> R (fst (f a g)) /\ I (snd (f a g)).

Lemma mapM_Forall_inv (l : list A) (g : Global) :
  I g -> Forall R (fst (mapM f l g)) /\ I (snd (mapM f l g)).
Proof.
  revert g. induction l as [|a l IH]; intros g Hg.
  - split; [constructor | exact Hg].
  - rewrite mapM_cons. cbn [fst snd].
    destruct (f_step a g Hg) as [Ha Hg1].
    destruct (IH _ Hg1) as [Hl Hg2].
    split; [constructor; assumption | exact Hg2].
Qed.

End MapMInvariant.

(** ** Reseeding *)

Lemma resetStar_recycle (self : Starfield) (star : Star.t) (g : Global) :
  Star.z (fst (resetStar self star false g)) = maxDepth self /\
  Star.pz (fst (resetStar self star false g)) = maxDepth self.
Proof. split; reflexivity. Qed.

Lemma resetStar_pz (self : Starfield) (star : Star.t) (b : bool) (g : Global) :
  Star.pz (fst (resetStar self star b g)) = Star.z (fst (resetStar self star b g)).
Proof. destruct b; reflexivity. Qed.

Lemma resetStar_painted (self : Starfield) (star : Star.t) (b : bool) (g : Global) :
  painted (snd (resetStar self star b g)) = painted g.
Proof. destruct b; reflexivity. Qed.

Lemma resetStar_raf (self : Starfield) (star : Star.t) (b : bool) (g : Global) :
  rafPending (snd (resetStar self star b g)) = rafPending g /\
  rafNext (snd (resetStar self star b g)) = rafNext g.
Proof. destruct b; split; reflexivity. Qed.

Lemma resetStar_initial_depth (self : Starfield) (star : Star.t) (g : Global) :
  0 <= maxDepth self ->
  randomInRange g ->
  (0 <= Star.z (fst (resetStar self star true g)) /\
   Star.z (fst (resetStar self star true g)) <= maxDepth self) /\
  randomInRange (snd (resetStar self star true g)).
Proof.
  intros Hm Hr. unfold resetStar, bind, ret, random. cbn [fst snd Star.z].
  destruct (Hr (randomPos g)) as [H0 H1].
  split; [|exact Hr].
  pose proof (Qmult_le_0_compat _ _ H0 Hm) as Ha.
  assert (Hb : 0 <= (1 - randomSeq g (randomPos g)) * maxDepth self)
    by (apply Qmult_le_0_compat; lra).
  split; lra.
Qed.

(** ** One star, one frame *)

Lemma updateStar_recycled (self : Starfield) (star : Star.t) (fs : Q) (g : Global) :
  leavesView self star fs = true ->
  updateStar self star fs g =
  (fst (resetStar self (Star.set_z star (movedZ self star fs)) false g), false,
   snd (resetStar self (Star.set_z star (movedZ self star fs)) false g)).
Proof.
  unfold leavesView, updateStar, movedZ. cbn [Star.z Star.x Star.y Star.set_z].
  intro H.
  destruct (Qltb _ 1); [reflexivity|].
  cbn [orb] in H. rewrite H. reflexivity.
Qed.

Lemma updateStar_kept (self : Starfield) (star : Star.t) (fs : Q) (g : Global) :
  leavesView self star fs = false ->
  updateStar self star fs g = (Star.set_z star (movedZ self star fs), true, g).
Proof.
  unfold leavesView, updateStar, movedZ. cbn [Star.z Star.x Star.y Star.set_z].
  intro H.
  destruct (Qltb _ 1); [discriminate|].
  cbn [orb] in H. rewrite H. reflexivity.
Qed.

Lemma animateStar_recycled (self : Starfield) (star : Star.t) (fs : Q) (g : Global) :
  leavesView self star fs = true ->
  animateStar self fs star g =
  resetStar self (Star.set_z star (movedZ self star fs)) false g.
Proof.
  intro H. unfold animateStar, bind.
  rewrite (updateStar_recycled _ _ _ _ H). cbn [fst snd]. unfold ret.
  destruct (resetStar _ _ _ _); reflexivity.
Qed.

Lemma animateStar_kept (self : Starfield) (star : Star.t) (fs : Q) (g : Global) :
  leavesView self star fs = false ->
  animateStar self fs star g =
  drawStar self (Star.set_z star (movedZ self star fs)) g.
Proof.
  intro H. unfold animateStar, bind.
  rewrite (updateStar_kept _ _ _ _ H). reflexivity.
Qed.

Lemma drawStar_star (self : Starfield) (star : Star.t) (g : Global) :
  fst (drawStar self star g) = Star.set_pz star (Star.z star).
Proof. reflexivity. Qed.

Lemma drawStar_painted (self : Starfield) (star : Star.t) (g : Global) :
  exists op, painted (snd (drawStar self star g)) = painted g ++ [op].
Proof. eexists. reflexivity. Qed.

Lemma animateStar_pz (self : Starfield) (star : Star.t) (fs : Q) (g : Global) :
  Star.pz (fst (animateStar self fs star g)) =
  Star.z (fst (animateStar self fs star g)).
Proof.
  destruct (leavesView self star fs) eqn:E.
  - rewrite (animateStar_recycled _ _ _ _ E). apply resetStar_pz.
  - rewrite (animateStar_kept _ _ _ _ E). reflexivity.
Qed.

Lemma animateStar_raf (self : Starfield) (fs : Q) (star : Star.t) (g : Global) :
  rafPending (snd (animateStar self fs star g)) = rafPending g /\
  rafNext (snd (animateStar self fs star g)) = rafNext g.
Proof.
  destruct (leavesView self star fs) eqn:E.
  - rewrite (animateStar_recycled _ _ _ _ E). apply resetStar_raf.
  - rewrite (animateStar_kept _ _ _ _ E). split; reflexivity.
Qed.

Lemma leavesView_false_ge1 (self : Starfield) (star : Star.t) (fs : Q) :
  leavesView self star fs = false -> 1 <= movedZ self star fs.
Proof.
  unfold leavesView. intro H. apply orb_false_iff in H as [H _].
  now apply Qltb_ge.
Qed.

Lemma movedZ_le (self : Starfield) (star : Star.t) (fs : Q) :
  0 <= fs ->
  0 <= Opt.speed (options self) * speedMultiplier self ->
  movedZ self star fs <= Star.z star.
Proof.
  intros Hfs Hsp. unfold movedZ.
  pose proof (Qmult_le_0_compat _ _ Hsp Hfs) as H. lra.
Qed.

Lemma animateStar_depth (self : Starfield) (star : Star.t) (fs : Q) (g : Global) :
  0 <= fs ->
  0 <= Opt.speed (options self) * speedMultiplier self ->
  Star.z star <= maxDepth self ->
  let z' := Star.z (fst (animateStar self fs star g)) in
  z' <= maxDepth self /\ (1 <= z' \/ z' = maxDepth self).
Proof.
  intros Hfs Hsp Hz. cbv zeta.
  destruct (leavesView self star fs) eqn:E.
  - rewrite (animateStar_recycled _ _ _ _ E).
    destruct (resetStar_recycle self (Star.set_z star (movedZ self star fs)) g)
      as [-> _].
    split; [apply Qle_refl | now right].
  - rewrite (animateStar_kept _ _ _ _ E).
    rewrite drawStar_star. cbn [Star.z Star.set_pz Star.set_z].
    split.
    + apply Qle_trans with (Star.z star); [now apply movedZ_le | exact Hz].
    + left. now apply leavesView_false_ge1.
Qed.

(** C2: in the per-point step, after the depth is decremented by
    [speed * speedMultiplier * frameScale], the star is recycled (the step
    reports it as not drawable) exactly when the new depth is below 1 or
    its projection is off screen, and exactly then nothing is drawn for it
    in the frame; a recycled star has [z = maxDepth] and [pz = z]; a kept
    star only has its depth changed. *)
Theorem updateStar_recycle_iff (self : Starfield) (star : Star.t) (fs : Q) (g : Global) :
  let z' := Star.z star - Opt.speed (options self) * speedMultiplier self * fs in
  let gone :=
    z' < 1 \/
    isOffscreen self (projectX self (Star.x star) z')
                     (projectY self (Star.y star) z') = true in
  let r := updateStar self star fs g in
  (snd (fst r) = false <-> gone) /\
  (painted (snd (animateStar self fs star g)) = painted g <-> gone) /\
  (snd (fst r) = false ->
     Star.z (fst (fst r)) = maxDepth self /\
     Star.pz (fst (fst r)) = Star.z (fst (fst r))) /\
  (snd (fst r) = true -> fst (fst r) = Star.set_z star z' /\ snd r = g).
Proof.
  cbv zeta.
  assert (Hgone : leavesView self star fs = true <->
                  (movedZ self star fs < 1 \/
                   isOffscreen self (projectX self (Star.x star) (movedZ self star fs))
                     (projectY self (Star.y star) (movedZ self star fs)) = true)).
  { unfold leavesView. rewrite orb_true_iff, Qltb_lt. reflexivity. }
  fold (movedZ self star fs).
  destruct (leavesView self star fs) eqn:E.
  - rewrite (updateStar_recycled _ _ _ _ E), (animateStar_recycled _ _ _ _ E).
    cbn [fst snd]. rewrite resetStar_painted.
    repeat split; try (intros; apply Hgone; reflexivity); try discriminate.
  - rewrite (updateStar_kept _ _ _ _ E), (animateStar_kept _ _ _ _ E).
    cbn [fst snd].
    assert (Hno : ~ (movedZ self star fs < 1 \/
                   isOffscreen self (projectX self (Star.x star) (movedZ self star fs))
                     (projectY self (Star.y star) (movedZ self star fs)) = true)).
    { intro H. apply Hgone in H. discriminate. }
    repeat split; try discriminate; try (intro H; exfalso; exact (Hno H)).
    intro H. exfalso.
    destruct (drawStar_painted self (Star.set_z star (movedZ self star fs)) g)
      as [op Hop].
    rewrite Hop in H. apply (f_equal (@List.length _)) in H.
    rewrite length_app in H. simpl in H. lia.
Qed.

(** ** Timing *)

Lemma tickTiming_self (self : Starfield) (t : Q) :
  fst (fst (tickTiming self t)) = set_lastTime self t.
Proof. unfold tickTiming. destruct (falsyNum (lastTime self)); reflexivity. Qed.

Lemma tickFrameScale_nonneg (self : Starfield) (t : Q) :
  falsyNum (lastTime self) = true \/ lastTime self <= t ->
  0 <= tickFrameScale self t.
Proof.
  intro H. unfold tickFrameScale, tickTiming.
  assert (Hd : 0 <= Qmin 64
                 (t - lastTime (if falsyNum (lastTime self)
                                then set_lastTime self t else self))).
  { apply Q.min_glb; [discriminate|].
    destruct (falsyNum (lastTime self)) eqn:E; cbn [lastTime set_lastTime].
    - lra.
    - destruct H as [H|H]; [discriminate | lra]. }
  cbn [snd]. qconst. lra.
Qed.



(** ** One tick *)

(** What a running tick leaves behind. *)
Lemma animate_running (self : Starfield) (t : Q) (g : Global) :
  running self = true ->
  let self' := fst (fst (tickTiming self t)) in
  let g1 := set_painted g (painted g ++
              [FillRect (Opt.backgroundColor (options self)) 0 0
                        (width self) (height self)]) in
  let r := mapM (animateStar self' (tickFrameScale self t)) (stars self) g1 in
  animate self t g =
  (set_rafId (set_stars self' (fst r)) (Some (rafNext (snd r))),
   set_raf (snd r) (S (rafNext (snd r))) (rafPending (snd r) ++ [rafNext (snd r)])).
Proof.
  intro Hr. unfold animate. rewrite Hr. cbn [negb].
  unfold tickFrameScale, tickTiming.
  destruct (falsyNum (lastTime self)); cbn -[mapM Qmin Qdiv];
    unfold bind, paint, requestAnimationFrame, ret; cbn -[mapM Qmin Qdiv];
    destruct (mapM _ _ _) as [l g2]; reflexivity.
Qed.

Lemma animate_stopped (self : Starfield) (t : Q) (g : Global) :
  running self = false -> animate self t g = (self, g).
Proof. intro Hr. unfold animate. rewrite Hr. reflexivity. Qed.

Lemma animate_stars_Forall (self : Starfield) (t : Q) (g : Global)
      (P R : Star.t -> Prop) :
  running self = true ->
  (forall star g', P star ->
     R (fst (animateStar (set_lastTime self t) (tickFrameScale self t) star g'))) ->
  Forall P (stars self) ->
  Forall R (stars (fst (animate self t g))).
Proof.
  intros Hr Hstep HP.
  rewrite (animate_running self t g Hr). cbv zeta. cbn [fst stars set_rafId set_stars].
  rewrite tickTiming_self.
  apply mapM_Forall with (P := P); assumption.
Qed.

Lemma animate_maxDepth (self : Starfield) (t : Q) (g : Global) :
  maxDepth (fst (animate self t g)) = maxDepth self.
Proof.
  destruct (running self) eqn:Hr.
  - rewrite (animate_running self t g Hr). cbv zeta. cbn [fst].
    rewrite tickTiming_self. reflexivity.
  - unfold animate. rewrite Hr. reflexivity.
Qed.

Lemma animate_sched (self : Starfield) (t : Q) (g : Global) :
  running self = true ->
  running (fst (animate self t g)) = true /\
  rafId (fst (animate self t g)) = Some (rafNext g) /\
  rafPending (snd (animate self t g)) = rafPending g ++ [rafNext g] /\
  rafNext (snd (animate self t g)) = S (rafNext g).
Proof.
  intro Hr. rewrite (animate_running self t g Hr). cbv zeta.
  match goal with
  | |- context [mapM ?f ?l ?g0] =>
      pose proof (mapM_keeps f rafPending
                    (fun a g' => proj1 (animateStar_raf _ _ a g')) l g0) as HP;
      pose proof (mapM_keeps f rafNext
                    (fun a g' => proj2 (animateStar_raf _ _ a g')) l g0) as HN;
      destruct (mapM f l g0) as [l' g2]
  end.
  cbn [fst snd] in *. rewrite tickTiming_self.
  cbn. rewrite HP, HN. cbn. rewrite Hr. repeat split.
Qed.

(** One tick keeps every star at or below [maxDepth], and leaves it at
    depth 1 or more unless it was recycled to [maxDepth]. *)
Lemma animate_depth_step (self : Starfield) (t : Q) (g : Global) :
  running self = true ->
  0 <= tickFrameScale self t ->
  0 <= Opt.speed (options self) * speedMultiplier self ->
  Forall (fun st => Star.z st <= maxDepth self) (stars self) ->
  Forall (fun st => Star.z st <= maxDepth self /\
                    (1 <= Star.z st \/ Star.z st = maxDepth self))
         (stars (fst (animate self t g))).
Proof.
  intros Hr Hfs Hsp Hin.
  apply animate_stars_Forall with (P := fun st => Star.z st <= maxDepth self);
    [exact Hr | | exact Hin].
  intros star g' Hz.
  exact (animateStar_depth (set_lastTime self t) star (tickFrameScale self t) g'
           Hfs Hsp Hz).
Qed.

(** ** Resizing *)

Lemma resize_unfold (self : Starfield) (g : Global) :
  let m := measure self g in
  let r := mapM (fun star => resetStar m star true) (stars self)
             (set_canvas g (floor (width m * getDpr m g))
                           (floor (height m * getDpr m g)) (getDpr m g)) in
  resize self g = (set_stars m (fst r), snd r).
Proof.
  cbv zeta. unfold resize, bind, gets, sizeCanvas, ret.
  replace (stars (measure self g)) with (stars self)
    by (unfold measure; destruct (fullPage self); reflexivity).
  destruct (mapM _ _ _); reflexivity.
Qed.

Lemma measure_fields (self : Starfield) (g : Global) :
  options (measure self g) = options self /\
  target (measure self g) = target self /\
  fullPage (measure self g) = fullPage self /\
  stars (measure self g) = stars self /\
  lastTime (measure self g) = lastTime self /\
  running (measure self g) = running self /\
  rafId (measure self g) = rafId self.
Proof.
  unfold measure. destruct (fullPage self) eqn:E;
    repeat split; try reflexivity; exact E.
Qed.

Lemma measure_maxDepth (self : Starfield) (g : Global) :
  maxDepth (measure self g) = Qmax (width (measure self g)) (height (measure self g)).
Proof. unfold measure. destruct (fullPage self); reflexivity. Qed.

Lemma measure_size (self : Starfield) (g : Global) :
  (fullPage self = true ->
     width (measure self g) = innerWidth g /\
     height (measure self g) = innerHeight g) /\
  (fullPage self = false ->
     1 <= width (measure self g) /\ 1 <= height (measure self g)) /\
  centerX (measure self g) = width (measure self g) / 2 /\
  centerY (measure self g) = height (measure self g) / 2.
Proof.
  unfold measure. destruct (fullPage self);
    cbn [width height centerX centerY set_trailLength set_speedMultiplier
         set_maxDepth set_center set_size].
  - split; [intros _; split; reflexivity|].
    split; [discriminate|]. split; reflexivity.
  - split; [discriminate|].
    split; [intros _; split; apply Q.le_max_l|]. split; reflexivity.
Qed.

Lemma resize_fields (self : Starfield) (g : Global) :
  options (fst (resize self g)) = options self /\
  target (fst (resize self g)) = target self /\
  fullPage (fst (resize self g)) = fullPage self.
Proof.
  rewrite resize_unfold. cbv zeta. cbn [fst].
  destruct (measure_fields self g) as (Ho & Ht & Hf & _).
  repeat split; assumption.
Qed.

Lemma resize_sched (self : Starfield) (g : Global) :
  running (fst (resize self g)) = running self /\
  rafId (fst (resize self g)) = rafId self /\
  rafPending (snd (resize self g)) = rafPending g /\
  rafNext (snd (resize self g)) = rafNext g.
Proof.
  rewrite resize_unfold. cbv zeta. cbn [fst snd].
  rewrite (mapM_keeps _ rafPending
             (fun a g' => proj1 (resetStar_raf _ a true g'))).
  rewrite (mapM_keeps _ rafNext
             (fun a g' => proj2 (resetStar_raf _ a true g'))).
  destruct (measure_fields self g) as (_ & _ & _ & _ & _ & Hr & Hi).
  repeat split; assumption.
Qed.

Lemma resize_stars_Forall (self : Starfield) (g : Global) (R : Star.t -> Prop) :
  (forall star g', R (fst (resetStar (measure self g) star true g'))) ->
  Forall R (stars (fst (resize self g))).
Proof.
  intro H. unfold resize, bind, gets, sizeCanvas. cbn [fst snd].
  match goal with
  | |- context [mapM ?f ?l ?g0] =>
      pose proof (mapM_Forall f (fun _ => True) R (fun a g' _ => H a g') l g0) as HF;
      destruct (mapM f l g0) as [l' g2]
  end.
  cbn [fst stars set_stars] in *. apply HF.
  apply Forall_forall. trivial.
Qed.

(** After [resize()] on a viewport with non-negative sides, the viewport
    fields are consistent and every star lies within [0, maxDepth]. *)
Lemma resize_establishes (self : Starfield) (g : Global) :
  randomInRange g ->
  (fullPage self = true -> 0 <= innerWidth g /\ 0 <= innerHeight g) ->
  let self' := fst (resize self g) in
  centred self' /\ 0 <= maxDepth self' /\
  Forall (fun st => 0 <= Star.z st /\ Star.z st <= maxDepth self') (stars self') /\
  randomInRange (snd (resize self g)).
Proof.
  intros Hr Hv. cbv zeta. rewrite resize_unfold. cbv zeta.
  cbn [fst snd stars maxDepth set_stars].
  destruct (measure_size self g) as (Hfp & Hct & Hcx & Hcy).
  assert (Hwh : 0 <= width (measure self g) /\ 0 <= height (measure self g)).
  { destruct (fullPage self) eqn:E.
    - destruct (Hfp eq_refl) as [-> ->]. now apply Hv.
    - destruct (Hct eq_refl). split; lra. }
  assert (Hm : 0 <= maxDepth (measure self g)).
  { rewrite measure_maxDepth.
    apply Qle_trans with (width (measure self g)); [tauto | apply Q.le_max_l]. }
  split.
  { unfold centred. cbn [width height centerX centerY set_stars].
    rewrite Hcx, Hcy. repeat split; try tauto; apply Qeq_refl. }
  split; [exact Hm|].
  apply (mapM_Forall_inv (fun star => resetStar (measure self g) star true)
           randomInRange
           (fun st => 0 <= Star.z st /\ Star.z st <= maxDepth (measure self g))).
  - intros a g0 Hg0. now apply resetStar_initial_depth.
  - exact Hr.
Qed.

(** ** Starting and stopping *)

Lemma start_running (self : Starfield) (g : Global) :
  running self = true -> start self g = (self, g).
Proof. intro Hr. unfold start. rewrite Hr. reflexivity. Qed.

Lemma start_stopped (self : Starfield) (g : Global) :
  running self = false ->
  start self g =
  (set_rafId (set_lastTime (set_running self true) 0) (Some (rafNext g)),
   set_raf g (S (rafNext g)) (rafPending g ++ [rafNext g])).
Proof. intro Hr. unfold start. rewrite Hr. reflexivity. Qed.

Lemma stop_stopped (self : Starfield) (g : Global) :
  running self = false -> stop self g = (self, g).
Proof. intro Hr. unfold stop. rewrite Hr. reflexivity. Qed.

Lemma stop_running (self : Starfield) (g : Global) (id : nat) :
  running self = true ->
  rafId self = Some id ->
  stop self g =
  (set_rafId (set_running self false) None,
   set_raf g (rafNext g) (filter (fun h => negb (Nat.eqb h id)) (rafPending g))).
Proof.
  intros Hr Hid. unfold stop. rewrite Hr. cbn [negb rafId set_running].
  rewrite Hid. reflexivity.
Qed.

Lemma start_stars (self : Starfield) (g : Global) :
  stars (fst (start self g)) = stars self.
Proof. unfold start. destruct (running self); reflexivity. Qed.

Lemma stop_stars (self : Starfield) (g : Global) :
  stars (fst (stop self g)) = stars self.
Proof.
  unfold stop. destruct (running self); [|reflexivity].
  cbn [negb]. destruct (rafId (set_running self false)); reflexivity.
Qed.

Lemma start_fields (self : Starfield) (g : Global) :
  options (fst (start self g)) = options self /\
  target (fst (start self g)) = target self /\
  fullPage (fst (start self g)) = fullPage self.
Proof. unfold start. destruct (running self); repeat split; reflexivity. Qed.

(** ** Construction *)

Lemma pushStars_raf (self : Starfield) (n : nat) (acc : list Star.t) (g : Global) :
  rafPending (snd (pushStars self n acc g)) = rafPending g.
Proof.
  revert acc g. induction n as [|n IH]; intros acc g; [reflexivity|].
  cbn [pushStars]. unfold bind, createStar.
  pose proof (resetStar_raf self (Star.mk 0 0 0 0) true g) as [H1 _].
  destruct (resetStar self _ true g) as [st g1]. cbn [snd] in H1.
  now rewrite IH.
Qed.

Lemma initStars_fields (self : Starfield) (g : Global) :
  options (fst (initStars self g)) = options self /\
  target (fst (initStars self g)) = target self /\
  fullPage (fst (initStars self g)) = fullPage self /\
  running (fst (initStars self g)) = running self /\
  rafPending (snd (initStars self g)) = rafPending g.
Proof.
  unfold initStars, bind, ret.
  pose proof (pushStars_raf self (Opt.starCount (options self)) [] g) as H.
  destruct (pushStars self _ [] g) as [l g1]. cbn [fst snd] in *.
  repeat split; try reflexivity. exact H.
Qed.

(** What a successful construction went through. *)
Lemma newStarfield_ok (opts : option UserOpt.t) (g g' : Global) (self : Starfield) :
  newStarfield opts g = (Ok self, g') ->
  exists tgt,
    let options :=
      assign DEFAULTS (match opts with Some u => u | None => UserOpt.empty end) in
    let s0 := blank options tgt (resolveFullPage opts tgt) in
    let r1 := initStars s0 g in
    let r2 := resize (fst r1) (snd r1) in
    resolveTarget g (Opt.target options) = Ok tgt /\
    (self, g') = if Opt.autostart options then start (fst r2) (snd r2) else r2.
Proof.
  unfold newStarfield, bind, gets.
  destruct (resolveTarget g _) as [tgt|e]; [|discriminate].
  destruct (contextAvailable g); cbn [negb]; [|discriminate].
  intro H. exists tgt. cbv zeta. split; [reflexivity|].
  destruct (initStars _ g) as [s1 g1]. cbn [fst snd].
  destruct (resize s1 g1) as [s2 g2]. cbn [fst snd].
  destruct (Opt.autostart _).
  - destruct (start s2 g2) as [s3 g3]. unfold ret in H. now inversion H.
  - unfold ret in H. now inversion H.
Qed.

(** ** Depth bounds *)

(** C1 (as amended): after a completed tick with a non-negative frame
    scale, on an instance whose per-frame speed [speed * speedMultiplier]
    is not negative and whose [maxDepth] is positive, every star that
    entered the tick at a depth of at most [maxDepth] has
    [0 < z <= maxDepth]; more precisely its depth is at least 1 or it was
    recycled to exactly [maxDepth]. *)
Theorem depth_bounds_after_tick (self : Starfield) (t : Q) (g : Global) :
  running self = true ->
  0 <= tickFrameScale self t ->
  0 <= Opt.speed (options self) * speedMultiplier self ->
  0 < maxDepth self ->
  Forall (fun st => Star.z st <= maxDepth self) (stars self) ->
  let self' := fst (animate self t g) in
  maxDepth self' = maxDepth self /\
  Forall (fun st => 0 < Star.z st <= maxDepth self' /\
                    (1 <= Star.z st \/ Star.z st = maxDepth self'))
         (stars self').
Proof.
  intros Hr Hfs Hsp Hmd Hin. cbv zeta.
  split; [apply animate_maxDepth|].
  rewrite animate_maxDepth.
  eapply Forall_impl; [|exact (animate_depth_step self t g Hr Hfs Hsp Hin)].
  cbv beta. intros st [Hle Hor].
  repeat split; try assumption.
  destruct Hor as [H1 | Heq]; [lra | rewrite Heq; exact Hmd].
Qed.

Lemma depth_bounds_witness :
  Forall (fun st => 0 < Star.z st <= 800 /\ (1 <= Star.z st \/ Star.z st = 800))
         (stars (fst (animate (sampleSelf 10 [Star.mk 0 0 400 400] 1000) 1016
                              (sampleGlobal 800 600 false (1#2))))).
Proof.
  apply (depth_bounds_after_tick (sampleSelf 10 [Star.mk 0 0 400 400] 1000) 1016
           (sampleGlobal 800 600 false (1#2))).
  - reflexivity.
  - vm_compute. discriminate.
  - vm_compute. discriminate.
  - reflexivity.
  - repeat constructor. vm_compute. discriminate.
Defined.

(** C1 (as stated) fails: nothing keeps the configured speed from being
    negative or the viewport from being empty.  With [speed = -10] on an
    800x600 page, a star seeded at depth 799.2 is at 818.4 > [maxDepth]
    after the second frame; on a 0x0 page [maxDepth] is 0 and every star
    sits at depth 0 after a frame. *)
Lemma depth_bounds_counterexample :
  (exists self g self' g',
      construct (userOptions 1 (-10)) (sampleGlobal 800 600 false (999#1000))
        = Some (self, g) /\
      run self [Frame 1000; Frame 1064] g = (self', g') /\
      running self' = true /\
      0 <= tickFrameScale (fst (run self [Frame 1000] g)) 1064 /\
      ~ Forall (fun st => 0 < Star.z st <= maxDepth self') (stars self')) /\
  (exists self g self' g',
      construct (userOptions 1 10) (sampleGlobal 0 0 false (1#2))
        = Some (self, g) /\
      run self [Frame 1000; Frame 1016] g = (self', g') /\
      running self' = true /\
      0 <= tickFrameScale (fst (run self [Frame 1000] g)) 1016 /\
      ~ Forall (fun st => 0 < Star.z st <= maxDepth self') (stars self')).
Proof.
  split.
  - do 4 eexists. split; [vm_compute; reflexivity|].
    split; [vm_compute; reflexivity|].
    split; [reflexivity|].
    split; [vm_compute; discriminate|].
    intro H. inversion H as [|st l [_ Hle] _]; subst.
    vm_compute in Hle. apply Hle. reflexivity.
  - do 4 eexists. split; [vm_compute; reflexivity|].
    split; [vm_compute; reflexivity|].
    split; [reflexivity|].
    split; [vm_compute; discriminate|].
    intro H. inversion H as [|st l [Hlt _] _]; subst.
    vm_compute in Hlt. discriminate.
Qed.

(** The bound of one tick, carried along any run of ticks whose
    timestamps do not run backwards. *)
Lemma ticks_depth_bounds (ts : list Q) (self : Starfield) (g : Global) :
  running self = true ->
  0 <= Opt.speed (options self) * speedMultiplier self ->
  0 < maxDepth self ->
  timestampsFrom self ts ->
  Forall (fun st => Star.z st <= maxDepth self) (stars self) ->
  Forall (fun st => Star.z st <= maxDepth self) (stars (fst (ticks self ts g))) /\
  (ts <> [] ->
   Forall (fun st => 0 < Star.z st) (stars (fst (ticks self ts g)))).
Proof.
  revert self g. induction ts as [|t ts IH]; intros self g Hr Hsp Hmd Hts Hin.
  - split; [exact Hin | congruence].
  - cbn [ticks]. unfold bind. destruct Hts as [Hlast Hmono].
    pose proof (tickFrameScale_nonneg self t Hlast) as Hfs.
    pose proof (animate_maxDepth self t g) as Hmd'.
    assert (Hall : Forall (fun st => 0 < Star.z st <= maxDepth self)
                          (stars (fst (animate self t g)))).
    { eapply Forall_impl; [|exact (animate_depth_step self t g Hr Hfs Hsp Hin)].
      cbv beta. intros st [Hle [H1|Heq]]; split; try assumption;
        [lra | rewrite Heq; exact Hmd]. }
    pose proof (animate_sched self t g Hr) as [Hr' _].
    assert (Hfields : options (fst (animate self t g)) = options self /\
                      speedMultiplier (fst (animate self t g)) = speedMultiplier self /\
                      lastTime (fst (animate self t g)) = t).
    { rewrite (animate_running self t g Hr). cbv zeta. cbn [fst].
      rewrite tickTiming_self. repeat split. }
    destruct Hfields as (Ho & Hs & Hl).
    destruct (animate self t g) as [s1 g1]. cbn [fst snd] in *.
    assert (Hin1 : Forall (fun st => Star.z st <= maxDepth s1) (stars s1)).
    { rewrite Hmd'. eapply Forall_impl; [|exact Hall]. cbv beta. tauto. }
    destruct (IH s1 g1 Hr') as [Hle Hpos].
    + now rewrite Ho, Hs.
    + now rewrite Hmd'.
    + destruct ts as [|t' ts']; [exact I|]. cbn [monotone] in Hmono.
      split; [right; rewrite Hl; tauto | tauto].
    + exact Hin1.
    + rewrite Hmd' in Hle. split; [exact Hle|]. intros _.
      destruct ts as [|t' ts'].
      * cbn [ticks ret fst]. eapply Forall_impl; [|exact Hall]. cbv beta. tauto.
      * apply Hpos. discriminate.
Qed.

(** ** The trail anchor *)

Lemma animate_anchored (self : Starfield) (t : Q) (g : Global) :
  Forall anchored (stars self) ->
  Forall anchored (stars (fst (animate self t g))).
Proof.
  intro H. destruct (running self) eqn:Hr.
  - apply animate_stars_Forall with (P := fun _ => True); [exact Hr | |].
    + intros star g' _. apply animateStar_pz.
    + apply Forall_forall. trivial.
  - unfold animate. rewrite Hr. exact H.
Qed.

Lemma step_anchored (self : Starfield) (e : event) (g : Global) :
  Forall anchored (stars self) ->
  Forall anchored (stars (fst (step self e g))).
Proof.
  intro H. destruct e as [| | |t|w h c]; cbn [step].
  - now rewrite start_stars.
  - now rewrite stop_stars.
  - apply resize_stars_Forall. intros. apply resetStar_pz.
  - unfold frame. destruct (rafPending g); [exact H|]. now apply animate_anchored.
  - exact H.
Qed.

Lemma run_anchored (es : list event) (self : Starfield) (g : Global) :
  Forall anchored (stars self) ->
  Forall anchored (stars (fst (run self es g))).
Proof.
  revert self g. induction es as [|e es IH]; intros self g H; [exact H|].
  cbn [run]. unfold bind.
  pose proof (step_anchored self e g H) as H1.
  destruct (step self e g) as [s1 g1]. apply IH. exact H1.
Qed.

(** C10: after every completed tick every star of the pool has
    [pz = z], whatever the pool looked like before; and this stays true
    through whatever happens next (method calls, further frames, viewport
    changes), so the anchor a star brings into a tick is its depth at the
    end of the previous one. *)
Theorem anchor_equals_depth_after_tick (self : Starfield) (t : Q) (g : Global) :
  running self = true ->
  Forall (fun st => Star.pz st = Star.z st) (stars (fst (animate self t g))) /\
  forall es g',
    Forall (fun st => Star.pz st = Star.z st)
           (stars (fst (run (fst (animate self t g)) es g'))).
Proof.
  intro Hr.
  assert (H : Forall anchored (stars (fst (animate self t g)))).
  { apply animate_stars_Forall with (P := fun _ => True); [exact Hr | |].
    - intros star g' _. apply animateStar_pz.
    - apply Forall_forall. trivial. }
  split; [exact H|].
  intros es g'. now apply run_anchored.
Qed.

Lemma anchor_equals_depth_witness :
  Forall (fun st => Star.pz st = Star.z st)
    (stars (fst (animate (sampleSelf 10 [Star.mk 0 0 400 777] 1000) 1016
                         (sampleGlobal 800 600 false (1#2))))) /\
  forall es g',
    Forall (fun st => Star.pz st = Star.z st)
      (stars (fst (run (fst (animate (sampleSelf 10 [Star.mk 0 0 400 777] 1000) 1016
                                     (sampleGlobal 800 600 false (1#2)))) es g'))).
Proof.
  apply (anchor_equals_depth_after_tick
           (sampleSelf 10 [Star.mk 0 0 400 777] 1000) 1016
           (sampleGlobal 800 600 false (1#2))).
  reflexivity.
Defined.

(** ** Resuming *)


(** ** Scheduling *)

Lemma step_scheduled (self : Starfield) (e : event) (g : Global) :
  scheduled self g ->
  scheduled (fst (step self e g)) (snd (step self e g)).
Proof.
  unfold scheduled. intro H. destruct e as [| | |t|w h c]; cbn [step].
  - destruct (running self) eqn:Hr.
    + rewrite (start_running _ _ Hr). cbn [fst snd]. rewrite Hr. exact H.
    + rewrite (start_stopped _ _ Hr). cbn. rewrite H.
      eexists. split; reflexivity.
  - destruct (running self) eqn:Hr.
    + destruct H as [id [Hid Hp]]. rewrite (stop_running _ _ _ Hr Hid).
      cbn. rewrite Hp. cbn. now rewrite Nat.eqb_refl.
    + rewrite (stop_stopped _ _ Hr). cbn [fst snd]. rewrite Hr. exact H.
  - destruct (resize_sched self g) as [-> [-> [-> _]]]. exact H.
  - unfold frame. destruct (running self) eqn:Hr.
    + destruct H as [id [Hid Hp]]. rewrite Hp.
      destruct (animate_sched self t (set_raf g (rafNext g) []) Hr)
        as [-> [-> [-> _]]].
      eexists. split; reflexivity.
    + rewrite H. cbn [fst snd]. rewrite Hr. exact H.
  - cbn [fst snd]. destruct (running self); exact H.
Qed.

Lemma run_scheduled (es : list event) (self : Starfield) (g : Global) :
  scheduled self g ->
  scheduled (fst (run self es g)) (snd (run self es g)).
Proof.
  revert self g. induction es as [|e es IH]; intros self g H; [exact H|].
  cbn [run]. unfold bind.
  pose proof (step_scheduled self e g H) as H1.
  destruct (step self e g) as [s1 g1]. apply IH. exact H1.
Qed.

(** A constructed instance starts out with a consistent scheduler, and
    keeps it through every sequence of events. *)
Lemma newStarfield_scheduled (opts : option UserOpt.t) (g g' : Global)
      (self : Starfield) :
  rafPending g = [] ->
  newStarfield opts g = (Ok self, g') ->
  scheduled self g'.
Proof.
  intros Hp H. apply newStarfield_ok in H as [tgt [_ H]]. cbv zeta in H.
  match type of H with
  | context [initStars ?s0 g] =>
      destruct (initStars_fields s0 g) as (_ & _ & _ & Hr1 & Hp1);
      destruct (initStars s0 g) as [s1 g1]
  end.
  cbn [fst snd running blank] in *.
  destruct (resize_sched s1 g1) as (Hr2 & _ & Hp2 & _).
  destruct (resize s1 g1) as [s2 g2]. cbn [fst snd] in *.
  assert (Hs2 : scheduled s2 g2).
  { unfold scheduled. rewrite Hr2, Hr1, Hp2, Hp1. exact Hp. }
  destruct (Opt.autostart _).
  - pose proof (step_scheduled s2 Start g2 Hs2) as Hs3. cbn [step] in Hs3.
    rewrite <- H in Hs3. exact Hs3.
  - inversion H; subst. exact Hs2.
Qed.

(** C5: on an instance whose scheduler state is consistent, [start()]
    twice in a row is the same as [start()] once and leaves exactly one
    frame callback pending, whose handle the instance holds; [stop()] on
    a stopped instance changes nothing; [stop()] on a running instance
    clears [running] and the handle and cancels the pending callback
    without taking a new handle, after which neither a delivered frame nor
    a direct call of [animate] schedules anything. *)
Theorem start_stop_idempotent (self : Starfield) (g : Global) :
  scheduled self g ->
  let r1 := start self g in
  let r2 := start (fst r1) (snd r1) in
  r2 = r1 /\
  running (fst r2) = true /\
  (exists id, rafPending (snd r2) = [id] /\ rafId (fst r2) = Some id) /\
  (running self = false -> stop self g = (self, g)) /\
  (running self = true ->
     let r3 := stop self g in
     running (fst r3) = false /\
     rafId (fst r3) = None /\
     rafPending (snd r3) = [] /\
     rafNext (snd r3) = rafNext g /\
     stop (fst r3) (snd r3) = r3 /\
     forall t, frame (fst r3) t (snd r3) = r3 /\
               animate (fst r3) t (snd r3) = r3).
Proof.
  intro H. cbv zeta. unfold scheduled in H.
  destruct (running self) eqn:Hr.
  - destruct H as [id [Hid Hp]].
    rewrite (start_running _ _ Hr). cbn [fst snd].
    rewrite (start_running _ _ Hr). cbn [fst snd].
    split; [reflexivity|]. split; [exact Hr|].
    split; [exists id; split; assumption|].
    split; [discriminate|]. intros _.
    rewrite (stop_running _ _ _ Hr Hid). cbn [fst snd].
    rewrite Hp. cbn [filter]. rewrite Nat.eqb_refl. cbn [negb].
    repeat split.
  - rewrite (start_stopped _ _ Hr). cbn [fst snd].
    rewrite start_running by reflexivity. cbn [fst snd].
    split; [reflexivity|]. split; [reflexivity|].
    split; [exists (rafNext g); rewrite H; split; reflexivity|].
    split; [intros _; apply (stop_stopped _ _ Hr) | discriminate].
Qed.

Lemma start_stop_idempotent_witness :
  let r1 := start (fst startedSample) (snd startedSample) in
  let r2 := start (fst r1) (snd r1) in
  let r3 := stop (fst startedSample) (snd startedSample) in
  r2 = r1 /\
  running (fst r2) = true /\
  (exists id, rafPending (snd r2) = [id] /\ rafId (fst r2) = Some id) /\
  running (fst r3) = false /\
  rafId (fst r3) = None /\
  rafPending (snd r3) = [] /\
  rafNext (snd r3) = rafNext (snd startedSample) /\
  stop (fst r3) (snd r3) = r3 /\
  forall t, frame (fst r3) t (snd r3) = r3 /\ animate (fst r3) t (snd r3) = r3.
Proof.
  assert (Hs : scheduled (fst startedSample) (snd startedSample))
    by (exists 0%nat; split; reflexivity).
  destruct (start_stop_idempotent (fst startedSample) (snd startedSample) Hs)
    as (H1 & H2 & H3 & _ & H5).
  cbv zeta. split; [exact H1|]. split; [exact H2|]. split; [exact H3|].
  apply H5. reflexivity.
Defined.

(** ** Device class and pixel ratio *)

(** C6 (as stated) fails in container mode: the instance's [width] and
    [height] are then the container's, but the device class is decided on
    the window.  A 500x800 container on a 1920x1080 desktop window gets
    the desktop multiplier although [min(width, height) = 500 < 900]. *)
Lemma resize_device_class_counterexample :
  exists self g,
    construct (containerOptions (node 1)) (sampleGlobal 1920 1080 false (1#2))
      = Some (self, g) /\
    let self' := fst (resize self g) in
    width self' = 500 /\ height self' = 800 /\
    (pointerCoarse g
     || Qltb (Qmin (width self') (height self'))
             (Opt.mobileBreakpoint (options self'))) = true /\
    speedMultiplier self' = Opt.desktopSpeedMultiplier (options self') /\
    speedMultiplier self' <> Opt.mobileSpeedMultiplier (options self').
Proof.
  do 2 eexists. split; [vm_compute; reflexivity|].
  cbv zeta. repeat split; try (vm_compute; reflexivity).
  vm_compute. discriminate.
Qed.

(** C6 (as amended): [resize()] classifies the device as mobile exactly
    when the pointer is coarse or the smaller side of the window
    ([innerWidth], [innerHeight]) is below [mobileBreakpoint], in both
    sizing modes, and sets [speedMultiplier] and [trailLength] from the
    mobile or the desktop multipliers accordingly; in full-page mode the
    window's sides are the instance's [width] and [height]; with a
    breakpoint of 900 and a 500x800 window the speed multiplier is the
    mobile one. *)
Theorem resize_device_class (self : Starfield) (g : Global) :
  let self' := fst (resize self g) in
  let o := options self in
  let mobile :=
    pointerCoarse g || Qltb (Qmin (innerWidth g) (innerHeight g))
                            (Opt.mobileBreakpoint o) in
  (mobile = true <->
     pointerCoarse g = true \/
     Qmin (innerWidth g) (innerHeight g) < Opt.mobileBreakpoint o) /\
  speedMultiplier self' =
    (if mobile then Opt.mobileSpeedMultiplier o
     else Opt.desktopSpeedMultiplier o) /\
  trailLength self' =
    Opt.trailLength o * (if mobile then Opt.mobileTrailMultiplier o
                         else Opt.desktopTrailMultiplier o) /\
  (fullPage self = true ->
     width self' = innerWidth g /\ height self' = innerHeight g) /\
  (Opt.mobileBreakpoint o = 900 -> innerWidth g = 500 -> innerHeight g = 800 ->
     mobile = true /\ speedMultiplier self' = Opt.mobileSpeedMultiplier o).
Proof.
  cbv zeta. rewrite resize_unfold. cbv zeta.
  cbn [fst speedMultiplier trailLength width height set_stars].
  assert (Hm : forall s, options s = options self ->
                 isMobileViewport s g =
                 pointerCoarse g || Qltb (Qmin (innerWidth g) (innerHeight g))
                                         (Opt.mobileBreakpoint (options self))).
  { intros s Hs. unfold isMobileViewport. now rewrite Hs. }
  assert (Hsp : speedMultiplier (measure self g) =
                if pointerCoarse g || Qltb (Qmin (innerWidth g) (innerHeight g))
                                         (Opt.mobileBreakpoint (options self))
                then Opt.mobileSpeedMultiplier (options self)
                else Opt.desktopSpeedMultiplier (options self)).
  { unfold measure. destruct (fullPage self);
      cbn [speedMultiplier set_trailLength set_speedMultiplier];
      rewrite Hm by reflexivity; reflexivity. }
  split.
  { rewrite orb_true_iff, Qltb_lt. reflexivity. }
  split; [exact Hsp|].
  split.
  { unfold measure. destruct (fullPage self);
      cbn [trailLength set_trailLength];
      rewrite Hm by reflexivity; reflexivity. }
  split.
  { intro Hfp. unfold measure. rewrite Hfp. split; reflexivity. }
  intros Hbp Hw Hh. rewrite Hsp, Hbp, Hw, Hh.
  assert (E : Qltb (Qmin 500 800) 900 = true) by reflexivity.
  rewrite E, orb_true_r. split; reflexivity.
Qed.

(** C7: a malformed [dprCap] is not an error.  For every value of the
    option [getDpr] returns a number: the native ratio when the option is
    not a number (undefined, null, a boolean, a string, an object), is NaN
    or is not strictly positive, and [min(native, dprCap)] when it is a
    positive number (which for an infinite cap is the native ratio).  The
    native ratio is [devicePixelRatio], or 1 when that is missing or 0. *)
Theorem getDpr_falls_back (self : Starfield) (g : Global) :
  let cap := Opt.dprCap (options self) in
  (exists r : Q, getDpr self g = r) /\
  (isNumber cap = false -> getDpr self g = nativeDpr g) /\
  (cap = VNum NaN -> getDpr self g = nativeDpr g) /\
  (cap = VNum NegInf -> getDpr self g = nativeDpr g) /\
  (forall q, cap = VNum (Fin q) -> q <= 0 -> getDpr self g = nativeDpr g) /\
  (forall q, cap = VNum (Fin q) -> 0 < q ->
     getDpr self g = Qmin (nativeDpr g) q) /\
  (cap = VNum PosInf -> getDpr self g = nativeDpr g) /\
  (devicePixelRatio g = None -> nativeDpr g = 1) /\
  (forall d, devicePixelRatio g = Some d -> ~ d == 0 -> nativeDpr g = d).
Proof.
  cbv zeta. unfold getDpr.
  split; [eexists; reflexivity|].
  split. { destruct (Opt.dprCap (options self)); try reflexivity; discriminate. }
  split. { intros ->. reflexivity. }
  split. { intros ->. reflexivity. }
  split. { intros q -> Hq. cbn [jsnum_gt0]. unfold Qgtb.
           apply Qltb_ge in Hq. now rewrite Hq. }
  split. { intros q -> Hq. cbn [jsnum_gt0]. unfold Qgtb.
           apply Qltb_lt in Hq. now rewrite Hq. }
  split. { intros ->. reflexivity. }
  split. { unfold nativeDpr. intros ->. reflexivity. }
  intros d Hd Hnz. unfold nativeDpr. rewrite Hd. unfold falsyNum.
  destruct (Qeq_bool d 0) eqn:E; [|reflexivity].
  apply Qeq_bool_iff in E. contradiction.
Qed.

(** ** Sizing mode *)

(** C8 (as stated) fails: without a [fullPage] option an instance mounted
    on an ordinary element is in container mode, sized by the element's
    bounds (500x800 here) and not by the 1920x1080 window, although the
    merged options still carry the default [fullPage: true]. *)
Lemma fullPage_default_counterexample :
  exists self g,
    hasOwnFullPage (Some (containerOptions (node 1))) = false /\
    newStarfield (Some (containerOptions (node 1)))
                 (sampleGlobal 1920 1080 false (1#2)) = (Ok self, g) /\
    Opt.fullPage (options self) = VBool true /\
    fullPage self = false /\
    width self = 500 /\ height self = 800 /\
    innerWidth g = 1920 /\ innerHeight g = 1080.
Proof.
  do 2 eexists. split; [reflexivity|].
  split; [vm_compute; reflexivity|].
  repeat split.
Qed.

(** C8 (as amended): when the caller does not supply [fullPage], the
    constructed instance is in full-page mode exactly when the resolved
    target is [document.body] or [document.documentElement], which
    includes the case of no [target] at all; the merged options keep the
    default [fullPage: true] whatever the target, but sizing follows the
    auto-detected mode. *)
Theorem fullPage_auto_detected (opts : option UserOpt.t) (g g' : Global)
        (self : Starfield) :
  hasOwnFullPage opts = false ->
  newStarfield opts g = (Ok self, g') ->
  Opt.fullPage (options self) = VBool true /\
  resolveTarget g (Opt.target (options self)) = Ok (target self) /\
  fullPage self =
    (element_eqb (target self) body || element_eqb (target self) documentElement) /\
  (Opt.target (options self) = TNone -> fullPage self = true) /\
  (fullPage self = true <-> target self = body \/ target self = documentElement).
Proof.
  intros Hown H. apply newStarfield_ok in H as [tgt [Ht H]]. cbv zeta in H.
  set (o := assign DEFAULTS match opts with Some u => u | None => UserOpt.empty end) in *.
  assert (Hfields : options self = o /\ target self = tgt /\
                    fullPage self = resolveFullPage opts tgt).
  { destruct (initStars_fields (blank o tgt (resolveFullPage opts tgt)) g)
      as (Ho1 & Ht1 & Hf1 & _).
    destruct (initStars _ g) as [s1 g1]. cbn [fst snd] in *.
    destruct (resize_fields s1 g1) as (Ho2 & Ht2 & Hf2).
    destruct (resize s1 g1) as [s2 g2]. cbn [fst snd] in *.
    destruct (Opt.autostart o).
    - destruct (start_fields s2 g2) as (Ho3 & Ht3 & Hf3).
      rewrite <- H in Ho3, Ht3, Hf3. cbn [fst] in *.
      rewrite Ho3, Ht3, Hf3, Ho2, Ht2, Hf2, Ho1, Ht1, Hf1. repeat split.
    - inversion H; subst. rewrite Ho2, Ht2, Hf2, Ho1, Ht1, Hf1. repeat split. }
  destruct Hfields as (Ho & Htg & Hfp).
  assert (Hauto : resolveFullPage opts tgt =
                  element_eqb tgt body || element_eqb tgt documentElement).
  { unfold resolveFullPage. unfold hasOwnFullPage in Hown.
    destruct opts as [u|]; [|reflexivity].
    destruct (UserOpt.fullPage u); [discriminate | reflexivity]. }
  rewrite Ho, Htg, Hfp, Hauto.
  split.
  { subst o. unfold hasOwnFullPage in Hown. destruct opts as [u|]; [|reflexivity].
    cbn [assign Opt.fullPage]. destruct (UserOpt.fullPage u); [discriminate|reflexivity]. }
  split; [exact Ht|].
  split; [reflexivity|].
  split.
  { intro Hn. rewrite Hn in Ht. cbn [resolveTarget] in Ht. inversion Ht. reflexivity. }
  rewrite orb_true_iff. destruct tgt; cbn [element_eqb]; split; intro Hx;
    try (left; reflexivity); try (right; reflexivity);
    destruct Hx; try discriminate.
Qed.

Lemma fullPage_auto_detected_witness :
  Opt.fullPage (options (fst builtSample)) = VBool true /\
  target (fst builtSample) = body /\
  fullPage (fst builtSample) = true.
Proof.
  destruct (fullPage_auto_detected (Some (userOptions 1 10))
              (sampleGlobal 800 600 false (1#2)) (snd builtSample) (fst builtSample))
    as (Ho & _ & _ & Hnone & _).
  - reflexivity.
  - vm_compute. reflexivity.
  - split; [exact Ho|]. split; [reflexivity|]. apply Hnone. reflexivity.
Defined.

(** ** A star at rest *)

Section StillStar.
Variable self : Starfield.
Hypothesis viewport_centred : centred self.
Hypothesis speed_zero : Opt.speed (options self) == 0.

Lemma projectX_axis (x z : Q) :
  x == 0 -> projectX self x z == centerX self.
Proof. intro Hx. unfold projectX, map, Qdiv. rewrite Hx. ring. Qed.

Lemma projectY_axis (y z : Q) :
  y == 0 -> projectY self y z == centerY self.
Proof. intro Hy. unfold projectY, map, Qdiv. rewrite Hy. ring. Qed.

Lemma isOffscreen_centre (sx sy : Q) :
  sx == centerX self -> sy == centerY self ->
  isOffscreen self sx sy = false.
Proof.
  destruct viewport_centred as (Hw & Hh & Hcx & Hcy).
  intros Hx Hy. unfold isOffscreen, Qgtb.
  repeat rewrite orb_false_iff. repeat split; apply Qltb_ge; qconst; lra.
Qed.

Lemma still_star_kept (st : Star.t) (fs : Q) :
  onAxis st ->
  leavesView self st fs = false /\ onAxis (Star.set_z st (movedZ self st fs)) /\
  movedZ self st fs == Star.z st.
Proof.
  intros (Hx & Hy & Hz).
  assert (Hm : movedZ self st fs == Star.z st).
  { unfold movedZ. rewrite speed_zero. ring. }
  split; [|split; [|exact Hm]].
  - unfold leavesView. apply orb_false_iff. split.
    + apply Qltb_ge. lra.
    + apply isOffscreen_centre; [now apply projectX_axis | now apply projectY_axis].
  - unfold onAxis. cbn [Star.x Star.y Star.z Star.set_z].
    repeat split; try assumption. lra.
Qed.

Lemma still_star_drawn (st : Star.t) (fs : Q) (g : Global) :
  onAxis st ->
  exists st' op,
    animateStar self fs st g = (st', set_painted g (painted g ++ [op])) /\
    onAxis st' /\ Star.z st' == Star.z st /\ Star.pz st' = Star.z st' /\
    strokeAt (centerX self) (centerY self) op.
Proof.
  intros Hst.
  destruct (still_star_kept st fs Hst) as (Hk & Hax & Hm).
  rewrite (animateStar_kept _ _ _ _ Hk).
  do 2 eexists. split; [reflexivity|].
  destruct Hax as (Hx & Hy & Hz).
  cbn [Star.x Star.y Star.z Star.set_z] in Hx, Hy, Hz.
  split; [repeat split; assumption|].
  split; [exact Hm|]. split; [reflexivity|].
  cbn [strokeAt Star.x Star.y Star.z Star.set_z].
  repeat split; first [now apply projectX_axis | now apply projectY_axis].
Qed.

End StillStar.

Lemma animate_still (self : Starfield) (st : Star.t) (t : Q) (g : Global) :
  running self = true ->
  centred self -> Opt.speed (options self) == 0 -> onAxis st ->
  stars self = [st] ->
  exists st' op id,
    animate self t g =
      (set_rafId (set_stars (set_lastTime self t) [st']) (Some id),
       set_raf (set_painted g
                  (painted g ++
                   [FillRect (Opt.backgroundColor (options self)) 0 0
                             (width self) (height self); op]))
               (S id) (rafPending g ++ [id])) /\
    onAxis st' /\ Star.z st' == Star.z st /\ Star.pz st' = Star.z st' /\
    strokeAt (centerX self) (centerY self) op.
Proof.
  intros Hr Hc Hs Hst Hpool.
  rewrite (animate_running self t g Hr). cbv zeta.
  rewrite tickTiming_self, Hpool, mapM_cons. cbn [mapM].
  match goal with
  | |- context [animateStar ?s ?fs st ?g1] =>
      destruct (still_star_drawn s Hc Hs st fs g1 Hst)
        as (st' & op & E & Hax & Hz & Hpz & Hop)
  end.
  rewrite E. unfold ret. cbn [fst snd].
  exists st', op, (rafNext g). split; [|auto].
  cbn. rewrite <- app_assoc. reflexivity.
Qed.

(** The trail depth is positive, hence not 0, on a positive [maxDepth]
    with a non-negative trail length and a positive anchor. *)
Lemma trailDepth_positive (self : Starfield) (st : Star.t) :
  0 < maxDepth self -> 0 <= trailLength self -> 0 < Star.pz st ->
  0 < trailDepth self st /\ ~ trailDepth self st == 0.
Proof.
  intros Hm Ht Hp.
  assert (H : 0 < trailDepth self st).
  { unfold trailDepth. apply Q.min_glb_lt; lra. }
  split; [exact H|]. intro E. rewrite E in H. discriminate.
Qed.

Lemma ticks_still (ts : list Q) (self : Starfield) (st : Star.t) (g : Global)
      (rest : Q) :
  running self = true ->
  centred self -> Opt.speed (options self) == 0 -> onAxis st ->
  stars self = [st] ->
  Star.z st == rest ->
  ~ trailDepth self st == 0 ->
  ~ Qmin (maxDepth self) (rest + trailLength self) == 0 ->
  exists st' ops,
    stars (fst (ticks self ts g)) = [st'] /\
    onAxis st' /\ Star.z st' == rest /\
    painted (snd (ticks self ts g)) = painted g ++ ops /\
    framesAt (centerX self) (centerY self) (List.length ts) ops /\
    randomPos (snd (ticks self ts g)) = randomPos g /\
    ~ trailDepth self st' == 0.
Proof.
  revert self st g.
  induction ts as [|t ts IH]; intros self st g Hr Hc Hs Hst Hpool Hz Htd Hrest.
  - exists st, []. cbn [ticks ret fst snd List.length].
    rewrite app_nil_r.
    split; [exact Hpool|]. split; [exact Hst|]. split; [exact Hz|].
    split; [reflexivity|]. split; [constructor|]. split; [reflexivity | exact Htd].
  - destruct (animate_still self st t g Hr Hc Hs Hst Hpool)
      as (st1 & op & id & E & Hax1 & Hz1 & Hpz1 & Hop).
    cbn [ticks]. unfold bind. rewrite E.
    assert (Hz1' : Star.z st1 == rest) by (now rewrite Hz1).
    assert (Htd1 : ~ trailDepth self st1 == 0).
    { unfold trailDepth. rewrite Hpz1, Hz1'. exact Hrest. }
    match goal with
    | |- context [ticks ?s1 ts ?g1] =>
        destruct (IH s1 st1 g1 Hr Hc Hs Hax1 eq_refl Hz1' Htd1 Hrest)
          as (st' & ops & Hp' & Hax' & Hz' & Hpaint & Hfr & Hrand & Htd')
    end.
    exists st', (FillRect (Opt.backgroundColor (options self)) 0 0
                          (width self) (height self) :: op :: ops).
    split; [exact Hp'|]. split; [exact Hax'|].
    split; [exact Hz'|].
    split; [rewrite Hpaint; cbn; rewrite <- app_assoc; reflexivity|].
    split; [cbn [List.length]; constructor; assumption|].
    split; [exact Hrand | exact Htd'].
Qed.

(** C9 (as amended): with a pool of one star, [speed = 0], the star at
    [x = 0], [y = 0] and at a depth of at least 1, on a viewport with
    non-negative sides centred at its middle, and with a trail depth
    [min(maxDepth, pz + trailLength)] that is not 0 on entry nor at the
    star's own depth (the value [pz] takes after the first draw), the
    star is never recycled (no random number is drawn) and never off
    screen: for every sequence of timestamps, every tick paints the
    background and one stroke whose two ends are both
    [(centerX, centerY)], and the star keeps its position and depth, with
    a trail depth that is again not 0. *)
Theorem still_star_always_drawn
        (self : Starfield) (st : Star.t) (ts : list Q) (g : Global) :
  running self = true ->
  0 <= width self -> 0 <= height self ->
  centerX self == width self / 2 -> centerY self == height self / 2 ->
  Opt.speed (options self) == 0 ->
  stars self = [st] ->
  Star.x st == 0 -> Star.y st == 0 -> 1 <= Star.z st ->
  ~ trailDepth self st == 0 ->
  ~ Qmin (maxDepth self) (Star.z st + trailLength self) == 0 ->
  exists st' ops,
    stars (fst (ticks self ts g)) = [st'] /\
    Star.x st' == 0 /\ Star.y st' == 0 /\ Star.z st' == Star.z st /\
    painted (snd (ticks self ts g)) = painted g ++ ops /\
    framesAt (centerX self) (centerY self) (List.length ts) ops /\
    randomPos (snd (ticks self ts g)) = randomPos g /\
    ~ trailDepth self st' == 0.
Proof.
  intros Hr Hw Hh Hcx Hcy Hs Hpool Hx Hy Hz Htd Hrest.
  destruct (ticks_still ts self st g (Star.z st) Hr
              (conj Hw (conj Hh (conj Hcx Hcy))) Hs
              (conj Hx (conj Hy Hz)) Hpool (Qeq_refl _) Htd Hrest)
    as (st' & ops & Hp & (Hx' & Hy' & _) & Hz' & Hpaint & Hfr & Hrand & Htd').
  exists st', ops. repeat split; assumption.
Qed.

Lemma still_star_always_drawn_witness :
  exists st' ops,
    stars (fst (ticks (sampleSelf 0 [Star.mk 0 0 400 400] 1000)
                      [1016; 1033; 6000]
                      (sampleGlobal 800 600 false (1#4)))) = [st'] /\
    Star.x st' == 0 /\ Star.y st' == 0 /\
    Star.z st' == Star.z (Star.mk 0 0 400 400) /\
    painted (snd (ticks (sampleSelf 0 [Star.mk 0 0 400 400] 1000)
                        [1016; 1033; 6000]
                        (sampleGlobal 800 600 false (1#4)))) =
      painted (sampleGlobal 800 600 false (1#4)) ++ ops /\
    framesAt (centerX (sampleSelf 0 [Star.mk 0 0 400 400] 1000))
             (centerY (sampleSelf 0 [Star.mk 0 0 400 400] 1000))
             (List.length [1016; 1033; 6000]) ops /\
    randomPos (snd (ticks (sampleSelf 0 [Star.mk 0 0 400 400] 1000)
                          [1016; 1033; 6000]
                          (sampleGlobal 800 600 false (1#4)))) =
      randomPos (sampleGlobal 800 600 false (1#4)) /\
    ~ trailDepth (sampleSelf 0 [Star.mk 0 0 400 400] 1000) st' == 0.
Proof.
  apply (still_star_always_drawn (sampleSelf 0 [Star.mk 0 0 400 400] 1000)
           (Star.mk 0 0 400 400) [1016; 1033; 6000]
           (sampleGlobal 800 600 false (1#4)));
    first [reflexivity | vm_compute; discriminate].
Defined.

(** C9 (as stated) fails for a star that starts closer than depth 1.
    Built with [starCount = 1] and [speed = 0], with random draws that
    seed the star at [x = 0], [y = 0], [z = 1/2], the first tick recycles
    the star and paints the background only; from the second tick on it
    is drawn, but at (200, 187.5) and not at the centre (400, 300). *)
Lemma still_star_counterexample :
  exists self g st,
    construct (userOptions 1 0)
      (sampleGlobalSeq 800 600 false
         (fun n => match n with
                   | 3%nat => 1 # 1600
                   | 4%nat | 5%nat => 1 # 2
                   | _ => 1 # 4
                   end)) = Some (self, g) /\
    running self = true /\
    Opt.speed (options self) = 0 /\
    stars self = [st] /\
    Star.x st == 0 /\ Star.y st == 0 /\ Star.z st == 1 # 2 /\
    painted g = [] /\
    painted (snd (run self [Frame 1000] g)) =
      [FillRect "#000000" 0 0 800 600] /\
    exists lw px py sx sy,
      painted (snd (run self [Frame 1000; Frame 1016] g)) =
        [FillRect "#000000" 0 0 800 600; FillRect "#000000" 0 0 800 600;
         Stroke "#FFFFFF" lw px py sx sy] /\
      sx == 200 /\ sy == 375 # 2 /\
      centerX self == 400 /\ centerY self == 300.
Proof.
  do 3 eexists. split; [vm_compute; reflexivity|].
  split; [reflexivity|]. split; [reflexivity|]. split; [reflexivity|].
  split; [reflexivity|]. split; [reflexivity|]. split; [reflexivity|].
  split; [reflexivity|]. split; [vm_compute; reflexivity|].
  do 5 eexists. split; [vm_compute; reflexivity|].
  repeat split; vm_compute; reflexivity.
Qed.

(** * Further properties of the code *)

(** ** Projection and stroke geometry *)

Lemma map_unit (q hi : Q) : map q 0 1 0 hi == hi * q.
Proof. unfold map. field. Qed.

Lemma projectX_formula (self : Starfield) (x z : Q) :
  projectX self x z == width self / 2 * (x / z) + centerX self.
Proof. unfold projectX. rewrite map_unit. reflexivity. Qed.

Lemma projectY_formula (self : Starfield) (y z : Q) :
  projectY self y z == height self / 2 * (y / z) + centerY self.
Proof. unfold projectY. rewrite map_unit. reflexivity. Qed.

Lemma Qinv_le_contravar (a b : Q) : 0 < a -> a <= b -> / b <= / a.
Proof.
  intros Ha Hab.
  assert (Hb : 0 < b) by lra.
  apply Qle_shift_inv_r; [exact Hb|].
  setoid_replace (/ a * b) with (b / a) by (unfold Qdiv; ring).
  apply Qle_shift_div_l; [exact Ha | lra].
Qed.

Lemma Qdiv_le_depth (x z1 z2 : Q) :
  0 < z1 -> z1 <= z2 -> 0 <= x -> x / z2 <= x / z1.
Proof.
  intros Hz Hle Hx. unfold Qdiv.
  rewrite (Qmult_comm x (/ z2)), (Qmult_comm x (/ z1)).
  apply Qmult_le_compat_r; [now apply Qinv_le_contravar | exact Hx].
Qed.

(** X1: perspective.  At a smaller depth a star projects at least as far
    from the centre of the view, on the side its spread coordinate puts
    it: for [0 < z1 <= z2] and a non-negative [width], [projectX] at [z1]
    is right of (or at) [projectX] at [z2] when [x >= 0] and left of it
    when [x <= 0]; likewise for [projectY] over the height. *)
Theorem projection_moves_outward (self : Starfield) (x y z1 z2 : Q) :
  0 <= width self -> 0 <= height self ->
  0 < z1 -> z1 <= z2 ->
  (0 <= x -> centerX self <= projectX self x z2 <= projectX self x z1) /\
  (x <= 0 -> projectX self x z1 <= projectX self x z2 <= centerX self) /\
  (0 <= y -> centerY self <= projectY self y z2 <= projectY self y z1) /\
  (y <= 0 -> projectY self y z1 <= projectY self y z2 <= centerY self).
Proof.
  intros Hw Hh Hz Hle.
  assert (Hz2 : 0 < z2) by lra.
  assert (Hside : forall half c, 0 <= half -> 0 <= c ->
            0 <= half * (c / z2) /\ half * (c / z2) <= half * (c / z1)).
  { intros half c Hhalf Hc. split.
    - apply Qmult_le_0_compat; [exact Hhalf|].
      unfold Qdiv. apply Qmult_le_0_compat; [exact Hc|].
      apply Qinv_le_0_compat. lra.
    - rewrite (Qmult_comm half (c / z2)), (Qmult_comm half (c / z1)).
      apply Qmult_le_compat_r; [now apply Qdiv_le_depth | exact Hhalf]. }
  assert (Hneg : forall c z, c / z == - ((- c) / z))
    by (intros; unfold Qdiv; ring).
  assert (Hhw : 0 <= width self / 2) by (qconst; lra).
  assert (Hhh : 0 <= height self / 2) by (qconst; lra).
  repeat rewrite projectX_formula. repeat rewrite projectY_formula.
  split; [|split; [|split]]; intro Hc.
  - destruct (Hside (width self / 2) x Hhw Hc). lra.
  - assert (Hc' : 0 <= - x) by lra.
    destruct (Hside (width self / 2) (- x) Hhw Hc') as [H0 H1].
    rewrite (Hneg x z1), (Hneg x z2). lra.
  - destruct (Hside (height self / 2) y Hhh Hc). lra.
  - assert (Hc' : 0 <= - y) by lra.
    destruct (Hside (height self / 2) (- y) Hhh Hc') as [H0 H1].
    rewrite (Hneg y z1), (Hneg y z2). lra.
Qed.

Lemma projection_moves_outward_witness :
  (centerX (sampleSelf 10 [] 0) <= projectX (sampleSelf 10 [] 0) 200 400
     <= projectX (sampleSelf 10 [] 0) 200 100) /\
  (centerY (sampleSelf 10 [] 0) <= projectY (sampleSelf 10 [] 0) 150 400
     <= projectY (sampleSelf 10 [] 0) 150 100).
Proof.
  destruct (projection_moves_outward (sampleSelf 10 [] 0) 200 150 100 400)
    as (Hx & _ & Hy & _); try (vm_compute; discriminate); try reflexivity.
  split; [apply Hx | apply Hy]; vm_compute; discriminate.
Defined.

(** X2: the stroke of a drawn star.  For a star at a non-zero depth,
    with a non-zero trail depth, on an instance whose [maxDepth] is not 0
    (so that no division is by zero), [drawStar] paints exactly one
    stroke, in the configured star colour, from the projection of the
    star at the trail depth [min(maxDepth, pz + trailLength)] to its
    projection at its own depth, and stores the depth as the next anchor;
    the line width [clamp(map(z, 0, maxDepth, 3, 0), 0.1, 3)] lies within
    [0.1, 3], and for a star within [0, maxDepth] of a positive [maxDepth]
    it is [max(0.1, 3 - 3 z / maxDepth)], thicker the nearer the star. *)
Theorem drawStar_stroke (self : Starfield) (star : Star.t) (g : Global) :
  ~ maxDepth self == 0 ->
  ~ Star.z star == 0 ->
  ~ trailDepth self star == 0 ->
  let trailZ := Qmin (maxDepth self) (Star.pz star + trailLength self) in
  let lw := clamp (map (Star.z star) 0 (maxDepth self) 3 0) (1 # 10) 3 in
  drawStar self star g =
    (Star.set_pz star (Star.z star),
     set_painted g
       (painted g ++
        [Stroke (Opt.starColor (options self)) lw
                (projectX self (Star.x star) trailZ)
                (projectY self (Star.y star) trailZ)
                (projectX self (Star.x star) (Star.z star))
                (projectY self (Star.y star) (Star.z star))])) /\
  trailZ <= maxDepth self /\
  trailZ <= Star.pz star + trailLength self /\
  1 # 10 <= lw /\ lw <= 3 /\
  (0 < maxDepth self -> 0 <= Star.z star -> Star.z star <= maxDepth self ->
     lw == Qmax (1 # 10) (3 - 3 * Star.z star / maxDepth self)).
Proof.
  intros Hm0 _ _. cbv zeta.
  split; [reflexivity|].
  split; [apply Q.le_min_l|]. split; [apply Q.le_min_r|].
  unfold clamp.
  split; [apply Q.le_max_l|].
  split; [apply Q.max_lub; [discriminate | apply Q.le_min_l]|].
  intros Hm Hz0 Hz1.
  assert (Hmap : map (Star.z star) 0 (maxDepth self) 3 0
                 == 3 - 3 * Star.z star / maxDepth self).
  { unfold map. field. lra. }
  assert (Hdiv : 0 <= Star.z star / maxDepth self).
  { apply Qle_shift_div_l; [exact Hm | lra]. }
  rewrite Hmap.
  assert (Hmin : Qmin 3 (3 - 3 * Star.z star / maxDepth self)
                 == 3 - 3 * Star.z star / maxDepth self).
  { apply Q.min_r. unfold Qdiv in *. rewrite <- Qmult_assoc. lra. }
  rewrite Hmin. reflexivity.
Qed.

Lemma drawStar_stroke_witness :
  let self := sampleSelf 10 [] 0 in
  let star := Star.mk 100 (-50) 400 410 in
  let g := sampleGlobal 800 600 false (1#2) in
  let lw := clamp (map 400 0 800 3 0) (1 # 10) 3 in
  drawStar self star g =
    (Star.mk 100 (-50) 400 400,
     set_painted g
       [Stroke "#FFFFFF" lw
               (projectX self 100 (Qmin 800 (410 + 10)))
               (projectY self (-50) (Qmin 800 (410 + 10)))
               (projectX self 100 400) (projectY self (-50) 400)]) /\
  1 # 10 <= lw /\ lw <= 3 /\ lw == 3 # 2.
Proof.
  destruct (drawStar_stroke (sampleSelf 10 [] 0) (Star.mk 100 (-50) 400 410)
              (sampleGlobal 800 600 false (1#2)))
    as (Hd & _ & _ & Hlo & Hhi & Hform);
    try (vm_compute; discriminate).
  cbv zeta. split; [exact Hd|]. split; [exact Hlo|]. split; [exact Hhi|].
  reflexivity.
Defined.

(** ** Reseeding keeps stars in view *)

Lemma resetStar_spread (self : Starfield) (star : Star.t) (b : bool) (g : Global) :
  0 <= width self -> 0 <= height self ->
  randomInRange g ->
  let st := fst (resetStar self star b g) in
  - width self <= Star.x st /\ Star.x st <= width self /\
  - height self <= Star.y st /\ Star.y st <= height self.
Proof.
  intros Hw Hh Hr. cbv zeta.
  assert (Hspread : forall r side, 0 <= r -> r < 1 -> 0 <= side ->
            - side <= (r * side - side / 2) * 2 /\
            (r * side - side / 2) * 2 <= side).
  { intros r side H0 H1 Hs.
    pose proof (Qmult_le_0_compat _ _ H0 Hs) as Ha.
    assert (Hb : 0 <= (1 - r) * side) by (apply Qmult_le_0_compat; lra).
    qconst. split; lra. }
  destruct b; unfold resetStar, bind, ret, random; cbn [fst snd Star.x Star.y].
  - destruct (Hr (S (randomPos g))) as [Hx0 Hx1].
    destruct (Hr (S (S (randomPos g)))) as [Hy0 Hy1].
    destruct (Hspread _ _ Hx0 Hx1 Hw). destruct (Hspread _ _ Hy0 Hy1 Hh).
    repeat split; assumption.
  - destruct (Hr (randomPos g)) as [Hx0 Hx1].
    destruct (Hr (S (randomPos g))) as [Hy0 Hy1].
    destruct (Hspread _ _ Hx0 Hx1 Hw). destruct (Hspread _ _ Hy0 Hy1 Hh).
    repeat split; assumption.
Qed.

Lemma project_within (half c m centre side : Q) :
  0 <= side -> half == side / 2 -> centre == side / 2 ->
  0 < m -> side <= m -> - side <= c -> c <= side ->
  0 <= half * (c / m) + centre /\ half * (c / m) + centre <= side.
Proof.
  intros Hs Hhalf Hc Hm Hsm Hlo Hhi.
  assert (Hq1 : c / m <= 1) by (apply Qle_shift_div_r; [exact Hm | lra]).
  assert (Hq0 : -1 <= c / m) by (apply Qle_shift_div_l; [exact Hm | lra]).
  assert (Hh0 : 0 <= half) by (rewrite Hhalf; qconst; lra).
  assert (Ha : 0 <= half * (1 - c / m)) by (apply Qmult_le_0_compat; lra).
  assert (Hb : 0 <= half * (1 + c / m)) by (apply Qmult_le_0_compat; lra).
  rewrite Hc. rewrite Hhalf in Ha, Hb |- *. qconst. split; lra.
Qed.

(** X3: a recycled star re-enters inside the view.  On a viewport with
    non-negative sides centred at its middle, whose [maxDepth] is positive
    and at least each side (as [resize] sets it), a star that
    [resetStar] restarts at [maxDepth] projects within the screen bounds,
    whatever [Math.random()] returned within [0, 1). *)
Theorem recycled_star_on_screen (self : Starfield) (star : Star.t) (g : Global) :
  centred self ->
  0 < maxDepth self ->
  width self <= maxDepth self -> height self <= maxDepth self ->
  randomInRange g ->
  let st := fst (resetStar self star false g) in
  Star.z st = maxDepth self /\
  isOffscreen self (projectX self (Star.x st) (Star.z st))
                   (projectY self (Star.y st) (Star.z st)) = false.
Proof.
  intros (Hw & Hh & Hcx & Hcy) Hm Hwm Hhm Hr. cbv zeta.
  destruct (resetStar_spread self star false g Hw Hh Hr) as (Hx0 & Hx1 & Hy0 & Hy1).
  cbv zeta in Hx0, Hx1, Hy0, Hy1.
  destruct (resetStar_recycle self star g) as [Hz _].
  split; [exact Hz|]. rewrite Hz.
  destruct (project_within (width self / 2) _ (maxDepth self) (centerX self)
              (width self) Hw (Qeq_refl _) Hcx Hm Hwm Hx0 Hx1) as [Hsx0 Hsx1].
  destruct (project_within (height self / 2) _ (maxDepth self) (centerY self)
              (height self) Hh (Qeq_refl _) Hcy Hm Hhm Hy0 Hy1) as [Hsy0 Hsy1].
  unfold isOffscreen, Qgtb. repeat rewrite orb_false_iff.
  repeat split; apply Qltb_ge;
    first [rewrite projectX_formula | rewrite projectY_formula]; assumption.
Qed.

Lemma recycled_star_on_screen_witness :
  let st := fst (resetStar (sampleSelf 10 [] 0) (Star.mk 0 0 (1#2) 3) false
                           (sampleGlobal 800 600 false (9#10))) in
  Star.z st = maxDepth (sampleSelf 10 [] 0) /\
  isOffscreen (sampleSelf 10 [] 0)
              (projectX (sampleSelf 10 [] 0) (Star.x st) (Star.z st))
              (projectY (sampleSelf 10 [] 0) (Star.y st) (Star.z st)) = false.
Proof.
  apply (recycled_star_on_screen (sampleSelf 10 [] 0) (Star.mk 0 0 (1#2) 3)
           (sampleGlobal 800 600 false (9#10))).
  - repeat split; vm_compute; congruence.
  - reflexivity.
  - vm_compute. discriminate.
  - vm_compute. discriminate.
  - intro n. split; [vm_compute; discriminate | reflexivity].
Defined.

(** ** Frame timing *)


(** ** What a tick paints *)

Lemma mapM_length {A B : Type} (f : A -> M B) (l : list A) (g : Global) :
  List.length (fst (mapM f l g)) = List.length l.
Proof.
  revert g. induction l as [|a l IH]; intro g; [reflexivity|].
  rewrite mapM_cons. cbn [fst List.length]. now rewrite IH.
Qed.

Lemma animateStar_paints (self : Starfield) (fs : Q) (star : Star.t) (g : Global) :
  exists ops,
    painted (snd (animateStar self fs star g)) = painted g ++ ops /\
    Forall isStroke ops /\
    List.length ops = List.length (keptStars self fs [star]).
Proof.
  unfold keptStars. cbn [filter].
  destruct (leavesView self star fs) eqn:E; cbn [negb].
  - exists []. rewrite (animateStar_recycled _ _ _ _ E), resetStar_painted.
    rewrite app_nil_r. repeat split. constructor.
  - rewrite (animateStar_kept _ _ _ _ E).
    eexists [_]. split; [reflexivity|]. split; [|reflexivity].
    constructor; [exact I | constructor].
Qed.

Lemma mapM_animateStar_paints (self : Starfield) (fs : Q) (l : list Star.t)
      (g : Global) :
  exists ops,
    painted (snd (mapM (animateStar self fs) l g)) = painted g ++ ops /\
    Forall isStroke ops /\
    List.length ops = List.length (keptStars self fs l).
Proof.
  revert g. induction l as [|a l IH]; intro g.
  - exists []. cbn. rewrite app_nil_r. repeat split. constructor.
  - rewrite mapM_cons. cbn [snd].
    destruct (animateStar_paints self fs a g) as (ops1 & Hp1 & Hs1 & Hn1).
    destruct (IH (snd (animateStar self fs a g))) as (ops2 & Hp2 & Hs2 & Hn2).
    exists (ops1 ++ ops2). rewrite Hp2, Hp1, app_assoc.
    split; [reflexivity|]. split; [now apply Forall_app|].
    rewrite length_app, Hn1, Hn2. unfold keptStars. cbn [filter].
    destruct (negb (leavesView self a fs)); reflexivity.
Qed.

(** X6: what a tick paints.  A running tick first fills the whole
    viewport rectangle with the background colour and then paints strokes
    only, one for each star the frame keeps and none for a recycled one;
    the pool keeps its size.  A tick on a stopped instance paints
    nothing. *)
Theorem animate_paints (self : Starfield) (t : Q) (g : Global) :
  (running self = true ->
   exists strokes,
     painted (snd (animate self t g)) =
       painted g ++
       FillRect (Opt.backgroundColor (options self)) 0 0 (width self) (height self)
       :: strokes /\
     Forall isStroke strokes /\
     List.length strokes =
       List.length (keptStars self (tickFrameScale self t) (stars self)) /\
     (List.length strokes <= List.length (stars self))%nat /\
     List.length (stars (fst (animate self t g))) = List.length (stars self)) /\
  (running self = false -> painted (snd (animate self t g)) = painted g).
Proof.
  split; intro Hr.
  - rewrite (animate_running self t g Hr). cbv zeta. rewrite tickTiming_self.
    match goal with
    | |- context [mapM ?f ?l ?g1] =>
        destruct (mapM_animateStar_paints (set_lastTime self t)
                    (tickFrameScale self t) l g1) as (ops & Hp & Hs & Hn);
        pose proof (mapM_length f l g1) as Hlen
    end.
    exists ops. cbn [fst snd painted set_raf stars set_rafId set_stars] in *.
    rewrite Hp. cbn [painted set_painted]. rewrite <- app_assoc.
    split; [reflexivity|]. split; [exact Hs|].
    split; [exact Hn|]. split; [|exact Hlen].
    rewrite Hn. unfold keptStars. apply filter_length_le.
  - rewrite (animate_stopped self t g Hr). reflexivity.
Qed.

(** ** Construction and the pool *)

Lemma pushStars_length (self : Starfield) (n : nat) (acc : list Star.t) (g : Global) :
  List.length (fst (pushStars self n acc g)) = (List.length acc + n)%nat.
Proof.
  revert acc g. induction n as [|n IH]; intros acc g.
  - cbn. lia.
  - cbn [pushStars]. unfold bind.
    destruct (createStar self true g) as [s g1].
    rewrite IH, length_app. cbn. lia.
Qed.

Lemma initStars_length (self : Starfield) (g : Global) :
  List.length (stars (fst (initStars self g))) = Opt.starCount (options self).
Proof.
  unfold initStars, bind, ret.
  pose proof (pushStars_length self (Opt.starCount (options self)) [] g) as H.
  destruct (pushStars self _ [] g) as [l g1]. exact H.
Qed.

Lemma resize_length (self : Starfield) (g : Global) :
  List.length (stars (fst (resize self g))) = List.length (stars self).
Proof.
  rewrite resize_unfold. cbv zeta. cbn [fst stars set_stars].
  apply mapM_length.
Qed.

Lemma animate_length (self : Starfield) (t : Q) (g : Global) :
  List.length (stars (fst (animate self t g))) = List.length (stars self).
Proof.
  destruct (running self) eqn:Hr.
  - rewrite (animate_running self t g Hr). cbv zeta.
    cbn [fst stars set_rafId set_stars]. apply mapM_length.
  - now rewrite (animate_stopped self t g Hr).
Qed.

Lemma animate_options (self : Starfield) (t : Q) (g : Global) :
  options (fst (animate self t g)) = options self.
Proof.
  destruct (running self) eqn:Hr.
  - rewrite (animate_running self t g Hr). cbv zeta. rewrite tickTiming_self.
    reflexivity.
  - now rewrite (animate_stopped self t g Hr).
Qed.

Lemma stop_options (self : Starfield) (g : Global) :
  options (fst (stop self g)) = options self.
Proof.
  unfold stop. destruct (running self); [|reflexivity].
  cbn [negb]. destruct (rafId (set_running self false)); reflexivity.
Qed.

Lemma step_pool (self : Starfield) (e : event) (g : Global) :
  List.length (stars (fst (step self e g))) = List.length (stars self) /\
  options (fst (step self e g)) = options self.
Proof.
  destruct e as [| | |t|w h c]; cbn [step].
  - rewrite start_stars. split; [reflexivity | apply start_fields].
  - rewrite stop_stars. split; [reflexivity | apply stop_options].
  - split; [apply resize_length | apply resize_fields].
  - unfold frame. destruct (rafPending g); [split; reflexivity|].
    split; [apply animate_length | apply animate_options].
  - split; reflexivity.
Qed.

Lemma run_pool (es : list event) (self : Starfield) (g : Global) :
  List.length (stars (fst (run self es g))) = List.length (stars self) /\
  options (fst (run self es g)) = options self.
Proof.
  revert self g. induction es as [|e es IH]; intros self g; [split; reflexivity|].
  cbn [run]. unfold bind.
  destruct (step_pool self e g) as [Hl Ho].
  destruct (step self e g) as [s1 g1]. cbn [fst] in *.
  destruct (IH s1 g1) as [Hl' Ho']. split; congruence.
Qed.

(** X7: the pool has a fixed size.  A constructed instance holds exactly
    [starCount] stars (the caller's value, or the default 800), and
    through every sequence of method calls, frames and viewport changes
    the pool keeps that size and the options stay as resolved at
    construction. *)
Theorem pool_size_fixed (opts : option UserOpt.t) (g g1 : Global)
        (self : Starfield) (es : list event) (g2 : Global) :
  newStarfield opts g = (Ok self, g1) ->
  options self =
    assign DEFAULTS (match opts with Some u => u | None => UserOpt.empty end) /\
  List.length (stars self) = Opt.starCount (options self) /\
  List.length (stars (fst (run self es g2))) = Opt.starCount (options self) /\
  options (fst (run self es g2)) = options self.
Proof.
  intro H. apply newStarfield_ok in H as [tgt [_ H]]. cbv zeta in H.
  set (o := assign DEFAULTS match opts with Some u => u | None => UserOpt.empty end) in *.
  assert (Hs : options self = o /\ List.length (stars self) = Opt.starCount o).
  { pose proof (initStars_length (blank o tgt (resolveFullPage opts tgt)) g) as Hl1.
    destruct (initStars_fields (blank o tgt (resolveFullPage opts tgt)) g)
      as (Ho1 & _).
    destruct (initStars _ g) as [s1 g1']. cbn [fst snd options blank] in *.
    pose proof (resize_length s1 g1') as Hl2.
    destruct (resize_fields s1 g1') as (Ho2 & _).
    destruct (resize s1 g1') as [s2 g2']. cbn [fst snd] in *.
    destruct (Opt.autostart o).
    - pose proof (start_stars s2 g2') as Hl3.
      destruct (start_fields s2 g2') as (Ho3 & _).
      rewrite <- H in Hl3, Ho3. cbn [fst] in *. split; congruence.
    - inversion H; subst. split; congruence. }
  destruct Hs as [Ho Hl]. destruct (run_pool es self g2) as [Hl' Ho'].
  repeat split; congruence.
Qed.

Lemma pool_size_fixed_witness :
  List.length (stars (fst builtSample)) = 1%nat /\
  List.length (stars (fst (run (fst builtSample)
                               [Frame 1000; Resize; Stop; Frame 1016; Start]
                               (snd builtSample)))) = 1%nat.
Proof.
  destruct (pool_size_fixed (Some (userOptions 1 10))
              (sampleGlobal 800 600 false (1#2)) (snd builtSample) (fst builtSample)
              [Frame 1000; Resize; Stop; Frame 1016; Start] (snd builtSample))
    as (Ho & Hl & Hr & _).
  - vm_compute. reflexivity.
  - rewrite Ho in Hl, Hr. split; [exact Hl | exact Hr].
Defined.

(** X8: construction fails fast.  [new Starfield(options)] throws its
    "not found" error for a non-empty selector that matches nothing and
    its "must be an Element or selector string" error for a truthy target
    that is neither a string nor an element, whether or not a 2D context
    is available; for every other target (none, the empty string, an
    element, a selector that matches) it throws its "failed to get 2D
    context" error when no context is available.  Each of the three
    errors arises from its own cause only, and a construction that threw
    one of them has seeded, scheduled and painted nothing.  With an
    element or a matching selector as target and a context available,
    none of them is thrown and the instance is mounted on that
    element. *)
Theorem newStarfield_fails_fast (opts : option UserOpt.t) (g : Global) :
  let o := assign DEFAULTS (match opts with Some u => u | None => UserOpt.empty end) in
  (forall sel, Opt.target o = TSelector sel -> sel <> EmptyString ->
     querySelector g sel = None ->
     newStarfield opts g = (Throw (TargetNotFound sel), g)) /\
  (Opt.target o = TOther -> newStarfield opts g = (Throw TargetInvalid, g)) /\
  (contextAvailable g = false ->
     Opt.target o = TNone \/ Opt.target o = TSelector EmptyString \/
     (exists e, Opt.target o = TElement e) \/
     (exists sel e, Opt.target o = TSelector sel /\ sel <> EmptyString /\
                    querySelector g sel = Some e) ->
     newStarfield opts g = (Throw NoContext, g)) /\
  (contextAvailable g = true ->
     forall e,
       Opt.target o = TElement e \/
       (exists sel, Opt.target o = TSelector sel /\ sel <> EmptyString /\
                    querySelector g sel = Some e) ->
       exists self g1, newStarfield opts g = (Ok self, g1) /\ target self = e) /\
  (forall err g', newStarfield opts g = (Throw err, g') ->
     g' = g /\
     match err with
     | TargetNotFound sel =>
         Opt.target o = TSelector sel /\ sel <> EmptyString /\
         querySelector g sel = None
     | TargetInvalid => Opt.target o = TOther
     | NoContext => contextAvailable g = false
     end).
Proof.
  cbv zeta.
  set (o := assign DEFAULTS match opts with Some u => u | None => UserOpt.empty end).
  assert (Hthrow : forall e, resolveTarget g (Opt.target o) = Throw e ->
                             newStarfield opts g = (Throw e, g)).
  { intros e He. unfold newStarfield, bind, gets. fold o. rewrite He. reflexivity. }
  assert (Hnoctx : forall tgt, resolveTarget g (Opt.target o) = Ok tgt ->
                     contextAvailable g = false ->
                     newStarfield opts g = (Throw NoContext, g)).
  { intros tgt Ht Hc. unfold newStarfield, bind, gets. fold o.
    rewrite Ht, Hc. reflexivity. }
  assert (Hok : forall tgt, resolveTarget g (Opt.target o) = Ok tgt ->
                  contextAvailable g = true ->
                  exists self g1, newStarfield opts g = (Ok self, g1) /\
                                  target self = tgt).
  { intros tgt Ht Hc.
    destruct (newStarfield opts g) as [[self|e] g1] eqn:E.
    + exists self, g1. split; [reflexivity|].
      apply newStarfield_ok in E as [tgt' [Ht' E]]. cbv zeta in E. fold o in Ht', E.
      rewrite Ht in Ht'. inversion Ht'; subst tgt'.
      destruct (initStars_fields (blank o tgt (resolveFullPage opts tgt)) g)
        as (_ & Ht1 & _).
      destruct (initStars _ g) as [s1 g1']. cbn [fst snd target blank] in *.
      destruct (resize_fields s1 g1') as (_ & Ht2 & _).
      destruct (resize s1 g1') as [s2 g2']. cbn [fst snd] in *.
      destruct (Opt.autostart o).
      * destruct (start_fields s2 g2') as (_ & Ht3 & _).
        rewrite <- E in Ht3. cbn [fst] in Ht3. congruence.
      * inversion E; subst. congruence.
    + exfalso. revert E. unfold newStarfield, bind, gets. fold o.
      rewrite Ht, Hc. cbn [negb].
      destruct (initStars _ g) as [s1 g1']. destruct (resize s1 g1') as [s2 g2'].
      destruct (Opt.autostart o); [destruct (start s2 g2')|]; discriminate. }
  assert (Hsel : forall sel, sel <> EmptyString ->
                   resolveTarget g (TSelector sel) =
                   match querySelector g sel with
                   | Some e => Ok e
                   | None => Throw (TargetNotFound sel)
                   end).
  { intros sel Hne. cbn [resolveTarget].
    destruct (String.eqb_spec sel EmptyString); [contradiction | reflexivity]. }
  split; [|split; [|split; [|split]]].
  - intros sel Hsel' Hne Hq. apply Hthrow. rewrite Hsel', (Hsel sel Hne), Hq.
    reflexivity.
  - intro Ho. apply Hthrow. rewrite Ho. reflexivity.
  - intros Hc [Ho | [Ho | [[e Ho] | (sel & e & Ho & Hne & Hq)]]].
    + apply (Hnoctx body); [rewrite Ho; reflexivity | exact Hc].
    + apply (Hnoctx body); [rewrite Ho; reflexivity | exact Hc].
    + apply (Hnoctx e); [rewrite Ho; reflexivity | exact Hc].
    + apply (Hnoctx e); [rewrite Ho, (Hsel sel Hne), Hq; reflexivity | exact Hc].
  - intros Hc e [Ho | (sel & Ho & Hne & Hq)].
    + apply Hok; [rewrite Ho; reflexivity | exact Hc].
    + apply Hok; [rewrite Ho, (Hsel sel Hne), Hq; reflexivity | exact Hc].
  - intros err g' E.
    destruct (resolveTarget g (Opt.target o)) as [tgt|e0] eqn:Ht.
    + destruct (contextAvailable g) eqn:Hc.
      * destruct (Hok tgt eq_refl eq_refl) as (self & g1 & E' & _).
        rewrite E' in E. discriminate.
      * rewrite (Hnoctx tgt eq_refl eq_refl) in E. inversion E; subst.
        split; reflexivity.
    + rewrite (Hthrow e0 eq_refl) in E. inversion E; subst err g'.
      split; [reflexivity|].
      destruct (Opt.target o) as [|sel|e|] eqn:Ho; cbn [resolveTarget] in Ht;
        try discriminate.
      * destruct (String.eqb_spec sel EmptyString) as [Hs|Hs]; [discriminate|].
        destruct (querySelector g sel) eqn:Hq; [discriminate|].
        inversion Ht; subst. repeat split; assumption.
      * inversion Ht; subst. reflexivity.
Qed.

Lemma resetStar_global (self : Starfield) (star : Star.t) (b : bool) (g : Global) :
  snd (resetStar self star b g) =
  set_randomPos g (randomPos g + (if b then 3 else 2)).
Proof.
  destruct b; unfold resetStar, bind, ret, random; cbn [snd];
    unfold set_randomPos; cbn; f_equal; lia.
Qed.

Lemma pushStars_painted (self : Starfield) (n : nat) (acc : list Star.t) (g : Global) :
  painted (snd (pushStars self n acc g)) = painted g.
Proof.
  revert acc g. induction n as [|n IH]; intros acc g; [reflexivity|].
  cbn [pushStars]. unfold bind, createStar.
  pose proof (resetStar_painted self (Star.mk 0 0 0 0) true g) as H1.
  destruct (resetStar self _ true g) as [st g1]. cbn [snd] in H1.
  now rewrite IH.
Qed.

Lemma resize_self (self : Starfield) (g : Global) :
  exists l, fst (resize self g) = set_stars (measure self g) l.
Proof. rewrite resize_unfold. cbv zeta. eexists. reflexivity. Qed.

Lemma resize_painted (self : Starfield) (g : Global) :
  painted (snd (resize self g)) = painted g.
Proof.
  rewrite resize_unfold. cbv zeta. cbn [snd].
  rewrite (mapM_keeps _ painted (fun a g' => resetStar_painted _ a true g')).
  reflexivity.
Qed.

(** X9: what the constructor leaves.  A constructed instance runs exactly
    when [autostart] is set, with one frame callback pending whose handle
    it holds, and otherwise has nothing scheduled; its stored timestamp is
    unset, nothing has been painted yet, every star has [pz = z], the
    centre is the middle of the viewport and [maxDepth] is its longer
    side. *)
Theorem newStarfield_post (opts : option UserOpt.t) (g g1 : Global)
        (self : Starfield) :
  newStarfield opts g = (Ok self, g1) ->
  running self = Opt.autostart (options self) /\
  lastTime self = 0 /\
  painted g1 = painted g /\
  Forall (fun st => Star.pz st = Star.z st) (stars self) /\
  centerX self = width self / 2 /\ centerY self = height self / 2 /\
  maxDepth self = Qmax (width self) (height self) /\
  rafId self = (if Opt.autostart (options self) then Some (rafNext g) else None) /\
  rafPending g1 =
    rafPending g ++ (if Opt.autostart (options self) then [rafNext g] else []).
Proof.
  intro H. apply newStarfield_ok in H as [tgt [_ H]]. cbv zeta in H.
  set (o := assign DEFAULTS match opts with Some u => u | None => UserOpt.empty end) in *.
  set (s0 := blank o tgt (resolveFullPage opts tgt)) in *.
  destruct (initStars_fields s0 g) as (Ho1 & _ & _ & Hr1 & Hp1).
  assert (Hi : lastTime (fst (initStars s0 g)) = 0 /\
               rafId (fst (initStars s0 g)) = None /\
               rafNext (snd (initStars s0 g)) = rafNext g /\
               painted (snd (initStars s0 g)) = painted g).
  { unfold initStars, bind, ret.
    pose proof (pushStars_painted s0 (Opt.starCount (options s0)) [] g) as Hpt.
    assert (Hn : forall n acc g0, rafNext (snd (pushStars s0 n acc g0)) = rafNext g0).
    { induction n as [|n IH]; intros acc g0; [reflexivity|].
      cbn [pushStars]. unfold bind, createStar.
      pose proof (resetStar_raf s0 (Star.mk 0 0 0 0) true g0) as [_ H2].
      destruct (resetStar s0 _ true g0) as [st g0']. cbn [snd] in H2.
      now rewrite IH. }
    specialize (Hn (Opt.starCount (options s0)) [] g).
    destruct (pushStars s0 _ [] g) as [l g']. cbn [fst snd] in *.
    repeat split; assumption. }
  destruct Hi as (Hl1 & Hid1 & Hn1 & Hpt1).
  destruct (initStars s0 g) as [s1 g1']. cbn [fst snd options running blank] in *.
  destruct (resize_sched s1 g1') as (Hr2 & Hid2 & Hp2 & Hn2).
  destruct (resize_fields s1 g1') as (Ho2 & _).
  pose proof (resize_painted s1 g1') as Hpt2.
  assert (Hanch : Forall anchored (stars (fst (resize s1 g1'))))
    by (apply resize_stars_Forall; intros; apply resetStar_pz).
  destruct (resize_self s1 g1') as [l Hself].
  destruct (measure_size s1 g1') as (_ & _ & Hcx & Hcy).
  pose proof (measure_maxDepth s1 g1') as Hmd.
  destruct (measure_fields s1 g1') as (_ & _ & _ & _ & Hlt & _).
  destruct (resize s1 g1') as [s2 g2']. cbn [fst snd] in *.
  assert (Hv : lastTime s2 = 0 /\ centerX s2 = width s2 / 2 /\
               centerY s2 = height s2 / 2 /\
               maxDepth s2 = Qmax (width s2) (height s2)).
  { rewrite Hself. cbn [lastTime centerX centerY maxDepth width height set_stars].
    split; [rewrite Hlt; exact Hl1|]. repeat split; assumption. }
  destruct Hv as (Hlt2 & Hcx2 & Hcy2 & Hmd2).
  assert (Hopt : options s2 = o) by (rewrite Ho2, Ho1; reflexivity).
  destruct (Opt.autostart o) eqn:Ha.
  - assert (Hoff : running s2 = false) by (rewrite Hr2, Hr1; reflexivity).
    rewrite (start_stopped s2 g2' Hoff) in H. inversion H; subst self g1.
    cbn [running lastTime painted stars centerX centerY maxDepth width height
         rafId rafPending options set_rafId set_lastTime set_running set_raf fst snd].
    rewrite Hopt, Ha, Hp2, Hp1, Hn2, Hn1, Hpt2.
    repeat split; first [assumption | reflexivity].
  - inversion H; subst self g1.
    rewrite Hopt, Ha, app_nil_r, Hr2, Hr1, Hid2, Hid1, Hp2, Hp1, Hpt2.
    repeat split; first [assumption | reflexivity].
Qed.

Lemma newStarfield_post_witness :
  running (fst builtSample) = true /\
  lastTime (fst builtSample) = 0 /\
  painted (snd builtSample) = [] /\
  rafId (fst builtSample) = Some 0%nat /\
  rafPending (snd builtSample) = [0%nat].
Proof.
  destruct (newStarfield_post (Some (userOptions 1 10))
              (sampleGlobal 800 600 false (1#2)) (snd builtSample) (fst builtSample))
    as (Hr & Hl & Hp & _ & _ & _ & _ & Hid & Hpend).
  - vm_compute. reflexivity.
  - repeat split; assumption.
Defined.

(** X10: never more than one frame callback.  From a platform with no
    callback pending, a constructed instance keeps, through every sequence
    of method calls, delivered frames and viewport changes, exactly one
    pending callback while it runs (the one whose handle it holds) and
    none while it is stopped. *)
Theorem one_pending_callback (opts : option UserOpt.t) (g g1 : Global)
        (self : Starfield) (es : list event) :
  rafPending g = [] ->
  newStarfield opts g = (Ok self, g1) ->
  let r := run self es g1 in
  (running (fst r) = true ->
     exists id, rafId (fst r) = Some id /\ rafPending (snd r) = [id]) /\
  (running (fst r) = false -> rafPending (snd r) = []).
Proof.
  intros Hp H. cbv zeta.
  pose proof (run_scheduled es self g1 (newStarfield_scheduled opts g g1 self Hp H))
    as Hs.
  unfold scheduled in Hs.
  destruct (running (fst (run self es g1))).
  - split; [intros _; exact Hs | discriminate].
  - split; [discriminate | intros _; exact Hs].
Qed.

Lemma one_pending_callback_witness :
  let r := run (fst builtSample)
               [Frame 1000; Start; Resize; Frame 1016; Stop; Frame 1033; Start]
               (snd builtSample) in
  (running (fst r) = true ->
     exists id, rafId (fst r) = Some id /\ rafPending (snd r) = [id]) /\
  (running (fst r) = false -> rafPending (snd r) = []).
Proof.
  apply (one_pending_callback (Some (userOptions 1 10))
           (sampleGlobal 800 600 false (1#2)) (snd builtSample) (fst builtSample)).
  - reflexivity.
  - vm_compute. reflexivity.
Defined.

(** ** Resizing *)

Lemma getDpr_measure (self : Starfield) (g : Global) :
  getDpr (measure self g) g = getDpr self g.
Proof.
  unfold getDpr. destruct (measure_fields self g) as (-> & _). reflexivity.
Qed.

Lemma mapM_resetStar_canvas (self : Starfield) (l : list Star.t) (g : Global) :
  let g' := snd (mapM (fun star => resetStar self star true) l g) in
  canvasWidth g' = canvasWidth g /\ canvasHeight g' = canvasHeight g /\
  ctxScale g' = ctxScale g.
Proof.
  cbv zeta.
  assert (H : forall a g0, snd (resetStar self a true g0)
                           = set_randomPos g0 (randomPos g0 + 3))
    by (intros; apply resetStar_global).
  repeat split;
    match goal with
    | |- ?p _ = _ => apply (mapM_keeps _ p); intros a g0; rewrite H; reflexivity
    end.
Qed.

(** X11: the metrics after a resize.  [resize()] leaves the centre at
    half the width and height and [maxDepth] at the longer side; in
    full-page mode the sides are the window's, in container mode they are
    the floored bounds of the target, never below 1, so that [maxDepth] is
    at least 1; the canvas backing store is the floored product of each
    side with the effective pixel ratio, which also becomes the scale of
    the context. *)
Theorem resize_metrics (self : Starfield) (g : Global) :
  let self' := fst (resize self g) in
  let g' := snd (resize self g) in
  centerX self' = width self' / 2 /\ centerY self' = height self' / 2 /\
  maxDepth self' = Qmax (width self') (height self') /\
  width self' <= maxDepth self' /\ height self' <= maxDepth self' /\
  (fullPage self = true ->
     width self' = innerWidth g /\ height self' = innerHeight g) /\
  (fullPage self = false ->
     width self' = Qmax 1 (floor (fst (boundingRect g (target self)))) /\
     height self' = Qmax 1 (floor (snd (boundingRect g (target self)))) /\
     1 <= width self' /\ 1 <= height self' /\ 1 <= maxDepth self') /\
  canvasWidth g' = floor (width self' * getDpr self g) /\
  canvasHeight g' = floor (height self' * getDpr self g) /\
  ctxScale g' = getDpr self g.
Proof.
  cbv zeta. rewrite resize_unfold. cbv zeta.
  cbn [fst snd centerX centerY maxDepth width height set_stars].
  destruct (measure_size self g) as (Hfp & Hct & Hcx & Hcy).
  pose proof (measure_maxDepth self g) as Hmd.
  destruct (mapM_resetStar_canvas (measure self g) (stars self)
              (set_canvas g (floor (width (measure self g) * getDpr (measure self g) g))
                 (floor (height (measure self g) * getDpr (measure self g) g))
                 (getDpr (measure self g) g))) as (Hcw & Hch & Hcs).
  cbv zeta in Hcw, Hch, Hcs. rewrite Hcw, Hch, Hcs, Hmd.
  cbn [canvasWidth canvasHeight ctxScale set_canvas]. rewrite getDpr_measure.
  split; [exact Hcx|]. split; [exact Hcy|]. split; [reflexivity|].
  split; [apply Q.le_max_l|]. split; [apply Q.le_max_r|].
  split; [exact Hfp|]. split; [|repeat split].
  intro Hc. destruct (Hct Hc) as [Hw1 Hh1].
  assert (Hw : width (measure self g) = Qmax 1 (floor (fst (boundingRect g (target self)))))
    by (unfold measure; rewrite Hc; reflexivity).
  assert (Hh : height (measure self g) = Qmax 1 (floor (snd (boundingRect g (target self)))))
    by (unfold measure; rewrite Hc; reflexivity).
  repeat split; try assumption.
  apply Qle_trans with (width (measure self g)); [exact Hw1 | apply Q.le_max_l].
Qed.

(** X12: a resize reseeds the whole pool.  After [resize()] on a viewport
    with non-negative sides, with [Math.random()] in [0, 1), every star
    lies within twice the viewport extent around the centre
    ([-width <= x <= width], [-height <= y <= height]), at a depth within
    [0, maxDepth], with [pz = z]; the pool keeps its size. *)
Theorem resize_reseeds (self : Starfield) (g : Global) :
  randomInRange g ->
  (fullPage self = true -> 0 <= innerWidth g /\ 0 <= innerHeight g) ->
  let self' := fst (resize self g) in
  List.length (stars self') = List.length (stars self) /\
  Forall (fun st =>
            - width self' <= Star.x st /\ Star.x st <= width self' /\
            - height self' <= Star.y st /\ Star.y st <= height self' /\
            0 <= Star.z st /\ Star.z st <= maxDepth self' /\
            Star.pz st = Star.z st)
         (stars self').
Proof.
  intros Hr Hv. cbv zeta. split; [apply resize_length|].
  rewrite resize_unfold. cbv zeta.
  cbn [fst stars maxDepth width height set_stars].
  destruct (measure_size self g) as (Hfp & Hct & _ & _).
  assert (Hwh : 0 <= width (measure self g) /\ 0 <= height (measure self g)).
  { destruct (fullPage self) eqn:E.
    - destruct (Hfp eq_refl) as [-> ->]. now apply Hv.
    - destruct (Hct eq_refl). split; lra. }
  destruct Hwh as [Hw Hh].
  assert (Hm : 0 <= maxDepth (measure self g)).
  { rewrite measure_maxDepth.
    apply Qle_trans with (width (measure self g)); [exact Hw | apply Q.le_max_l]. }
  apply (mapM_Forall_inv (fun star => resetStar (measure self g) star true)
           randomInRange).
  - intros a g0 Hg0.
    destruct (resetStar_initial_depth (measure self g) a g0 Hm Hg0) as [[Hz0 Hz1] Hg1].
    destruct (resetStar_spread (measure self g) a true g0 Hw Hh Hg0)
      as (Hx0 & Hx1 & Hy0 & Hy1).
    split; [|exact Hg1].
    repeat split; first [assumption | apply resetStar_pz].
  - exact Hr.
Qed.

Lemma resize_reseeds_witness :
  let self' := fst (resize (fst builtSample) (snd builtSample)) in
  List.length (stars self') = List.length (stars (fst builtSample)) /\
  Forall (fun st =>
            - width self' <= Star.x st /\ Star.x st <= width self' /\
            - height self' <= Star.y st /\ Star.y st <= height self' /\
            0 <= Star.z st /\ Star.z st <= maxDepth self' /\
            Star.pz st = Star.z st)
         (stars self').
Proof.
  apply (resize_reseeds (fst builtSample) (snd builtSample)).
  - intro n. split; [vm_compute; discriminate | reflexivity].
  - intros _. split; vm_compute; discriminate.
Defined.

(** X13: a resize leaves the loop alone.  [resize()] may be called at
    any time, also while running: it keeps [running], the stored
    timestamp, the scheduled handle and the pending callbacks, takes no
    new handle, paints nothing, and keeps the options, the target and the
    sizing mode; only the viewport fields, the canvas and the stars (and
    the position in the random sequence) change. *)
Theorem resize_keeps_loop (self : Starfield) (g : Global) :
  let self' := fst (resize self g) in
  let g' := snd (resize self g) in
  running self' = running self /\ lastTime self' = lastTime self /\
  rafId self' = rafId self /\
  rafPending g' = rafPending g /\ rafNext g' = rafNext g /\
  painted g' = painted g /\
  options self' = options self /\ target self' = target self /\
  fullPage self' = fullPage self /\
  forall t, tickDeltaMs self' t = tickDeltaMs self t.
Proof.
  cbv zeta.
  destruct (resize_sched self g) as (Hr & Hid & Hp & Hn).
  destruct (resize_fields self g) as (Ho & Ht & Hf).
  pose proof (resize_painted self g) as Hpt.
  assert (Hl : lastTime (fst (resize self g)) = lastTime self).
  { destruct (resize_self self g) as [l ->].
    destruct (measure_fields self g) as (_ & _ & _ & _ & Hlt & _). exact Hlt. }
  repeat split; try assumption.
  intro t. unfold tickDeltaMs, tickTiming. rewrite Hl.
  destruct (falsyNum (lastTime self)); cbn [fst snd lastTime set_lastTime];
    [reflexivity | now rewrite Hl].
Qed.

(** ** The document side: set-up and tear-down *)

Lemma element_eqb_eq (a b : element) : element_eqb a b = true <-> a = b.
Proof.
  destruct a, b; cbn [element_eqb]; split; intro H;
    try reflexivity; try discriminate.
  - apply Nat.eqb_eq in H. now subst.
  - inversion H. apply Nat.eqb_refl.
Qed.

Lemma stop_target (self : Starfield) (g : Global) :
  target (fst (stop self g)) = target self.
Proof.
  unfold stop. destruct (running self); [|reflexivity].
  cbn [negb]. destruct (rafId (set_running self false)); reflexivity.
Qed.

Lemma stop_off (self : Starfield) (g : Global) :
  running (fst (stop self g)) = false.
Proof.
  unfold stop. destruct (running self) eqn:Hr; cbn [negb]; [|exact Hr].
  destruct (rafId (set_running self false)); reflexivity.
Qed.

(** X14: how the canvas is mounted.  The constructor's DOM steps append
    the canvas to the target, subscribe to the window's resize event and
    style the canvas as a non-interactive block with the configured
    z-index.  In full-page mode the canvas is fixed over the viewport and
    no element's inline position is touched, nor is a ResizeObserver
    used.  In container mode the canvas is absolute inside the target,
    and the target is a positioned parent: a statically positioned target
    is given the inline position [relative], its previous inline value
    being remembered, and any other target is left as it is; no other
    element is touched; the target is observed exactly when the platform
    has a ResizeObserver. *)
Theorem setUpDom_modes (self : Starfield) (d : Dom) :
  let p := fst (setUpDom self d) in
  let d' := snd (setUpDom self d) in
  let tgt := target self in
  canvasParent d' = Some tgt /\ resizeListener d' = true /\
  Style.display (canvasStyle d') = "block"%string /\
  Style.pointerEvents (canvasStyle d') = "none"%string /\
  Style.zIndex (canvasStyle d') = stringOfZ (Opt.zIndex (options self)) /\
  Style.inset (canvasStyle d') = "0"%string /\
  (fullPage self = true ->
     Style.position (canvasStyle d') = "fixed"%string /\
     Style.width (canvasStyle d') = "100vw"%string /\
     Style.height (canvasStyle d') = "100vh"%string /\
     (forall e, inlinePosition d' e = inlinePosition d e) /\
     p = noPlumbing /\ observed d' = observed d) /\
  (fullPage self = false ->
     Style.position (canvasStyle d') = "absolute"%string /\
     Style.width (canvasStyle d') = "100%"%string /\
     Style.height (canvasStyle d') = "100%"%string /\
     (forall e, e <> tgt -> inlinePosition d' e = inlinePosition d e) /\
     (computedPosition d tgt = "static"%string ->
        inlinePosition d' tgt = "relative"%string /\
        mutatedTargetPosition p = true /\
        originalTargetPosition p = inlinePosition d tgt) /\
     (computedPosition d tgt <> "static"%string ->
        inlinePosition d' tgt = inlinePosition d tgt /\
        mutatedTargetPosition p = false) /\
     resizeObserver p = resizeObserverSupported d /\
     observed d' = (if resizeObserverSupported d then [tgt] else observed d)).
Proof.
  cbv zeta. unfold setUpDom, applyCanvasStyles, mountCanvas, attachListeners.
  destruct (fullPage self) eqn:Hfp; cbn [negb andb fst snd].
  - repeat split; try discriminate; reflexivity.
  - destruct (String.eqb_spec (computedPosition d (target self)) "static") as [Hs|Hs];
      cbn [fst snd resizeObserverSupported set_resizeListener set_canvasParent
           set_canvasStyle set_inlinePosition];
      destruct (resizeObserverSupported d) eqn:Hro;
      cbn [fst snd canvasParent resizeListener canvasStyle inlinePosition observed
           set_observed set_resizeListener set_canvasParent set_canvasStyle
           set_inlinePosition Style.display Style.pointerEvents Style.zIndex
           Style.inset Style.position Style.width Style.height
           resizeObserver mutatedTargetPosition originalTargetPosition noPlumbing];
      repeat (split || intro);
      try rewrite (proj2 (element_eqb_eq (target self) (target self)) eq_refl);
      try reflexivity; try discriminate; try contradiction;
      match goal with
      | |- context [element_eqb ?a ?b] =>
          destruct (element_eqb a b) eqn:E;
          [apply element_eqb_eq in E; contradiction | reflexivity]
      end.
Qed.

Lemma destroy_unfold (self : Starfield) (p : Plumbing) (g : Global) (d : Dom) :
  let d1 := snd (detachListeners p d) in
  let d2 := match canvasParent d1 with
            | Some _ => set_canvasParent d1 None
            | None => d1
            end in
  destroy self p g d =
  ((fst (stop self g), mkPlumbing false false (originalTargetPosition p)),
   (snd (stop self g),
    if mutatedTargetPosition p
    then set_inlinePosition d2 (target self) (originalTargetPosition p)
    else d2)).
Proof.
  cbv zeta. unfold destroy.
  pose proof (stop_target self g) as Ht.
  destruct (stop self g) as [s1 g1]. cbn [fst snd] in *.
  unfold detachListeners.
  destruct p as [ro mut orig]. cbn [resizeObserver mutatedTargetPosition originalTargetPosition].
  destruct ro; cbn [fst snd mutatedTargetPosition originalTargetPosition resizeObserver];
    destruct mut; rewrite ?Ht; reflexivity.
Qed.

(** X15: tear-down undoes set-up.  For an instance with a consistent
    scheduler and a freshly created canvas, [destroy()] after the
    constructor's DOM steps leaves the loop stopped with no frame callback
    pending, no resize listener, nothing observed and the canvas detached,
    and every element has the inline position it had before the instance
    was mounted; a frame or a call of [animate] on the destroyed instance
    does nothing. *)
Theorem destroy_undoes_setUp (self : Starfield) (g : Global) (d : Dom) :
  scheduled self g ->
  freshCanvas d ->
  let r := destroy self (fst (setUpDom self d)) g (snd (setUpDom self d)) in
  let self' := fst (fst r) in
  let p' := snd (fst r) in
  let g' := fst (snd r) in
  let d' := snd (snd r) in
  running self' = false /\ rafPending g' = [] /\
  resizeListener d' = false /\ observed d' = [] /\ canvasParent d' = None /\
  resizeObserver p' = false /\ mutatedTargetPosition p' = false /\
  (forall e, inlinePosition d' e = inlinePosition d e) /\
  (forall t, frame self' t g' = (self', g') /\ animate self' t g' = (self', g')).
Proof.
  intros Hs (Hstyle & Hpar & Hlis & Hobs). cbv zeta.
  rewrite destroy_unfold. cbv zeta. cbn [fst snd resizeObserver mutatedTargetPosition].
  pose proof (stop_off self g) as Hoff.
  pose proof (step_scheduled self Stop g Hs) as Hs'. cbn [step] in Hs'.
  unfold scheduled in Hs'. rewrite Hoff in Hs'.
  split; [exact Hoff|]. split; [exact Hs'|].
  assert (Hinert : forall t,
            frame (fst (stop self g)) t (snd (stop self g))
              = (fst (stop self g), snd (stop self g)) /\
            animate (fst (stop self g)) t (snd (stop self g))
              = (fst (stop self g), snd (stop self g))).
  { intro t. split; [unfold frame; now rewrite Hs' | now apply animate_stopped]. }
  unfold setUpDom, applyCanvasStyles, mountCanvas, attachListeners, detachListeners.
  destruct (fullPage self) eqn:Hfp; cbn [negb andb fst snd].
  - cbn. rewrite Hobs. repeat split; try reflexivity; apply Hinert.
  - destruct (String.eqb_spec (computedPosition d (target self)) "static") as [Hc|Hc];
      cbn [fst snd resizeObserverSupported set_resizeListener set_canvasParent
           set_canvasStyle set_inlinePosition];
      destruct (resizeObserverSupported d) eqn:Hro;
      cbn; rewrite ?Hobs;
      repeat split; try reflexivity; try apply Hinert;
      intro e; destruct (element_eqb e (target self)) eqn:E; try reflexivity;
      apply element_eqb_eq in E; now subst e.
Qed.

Lemma destroy_undoes_setUp_witness :
  let self := fst startedSample in
  let g := snd startedSample in
  let r := destroy self (fst (setUpDom self sampleDom)) g
                   (snd (setUpDom self sampleDom)) in
  running (fst (fst r)) = false /\ rafPending (fst (snd r)) = [] /\
  resizeListener (snd (snd r)) = false /\ observed (snd (snd r)) = [] /\
  canvasParent (snd (snd r)) = None /\
  resizeObserver (snd (fst r)) = false /\
  mutatedTargetPosition (snd (fst r)) = false /\
  (forall e, inlinePosition (snd (snd r)) e = inlinePosition sampleDom e) /\
  (forall t, frame (fst (fst r)) t (fst (snd r)) = (fst (fst r), fst (snd r)) /\
             animate (fst (fst r)) t (fst (snd r)) = (fst (fst r), fst (snd r))).
Proof.
  apply (destroy_undoes_setUp (fst startedSample) (snd startedSample) sampleDom).
  - exists 0%nat. split; reflexivity.
  - repeat split.
Defined.

(** X16: [destroy()] is idempotent.  Whatever the state of the instance,
    its bookkeeping and the document, a second [destroy()] changes
    nothing. *)
Theorem destroy_idempotent (self : Starfield) (p : Plumbing) (g : Global) (d : Dom) :
  let r := destroy self p g d in
  destroy (fst (fst r)) (snd (fst r)) (fst (snd r)) (snd (snd r)) = r.
Proof.
  cbv zeta. rewrite (destroy_unfold self p g d). cbv zeta. cbn [fst snd].
  rewrite destroy_unfold. cbv zeta.
  rewrite (stop_stopped _ _ (stop_off self g)). cbn [fst snd].
  destruct d as [ip cp ros cs par lis obs], p as [ro mut orig].
  destruct ro, mut, par; reflexivity.
Qed.

Lemma resize_canvas (self : Starfield) (g : Global) :
  width (fst (resize self g)) = width (measure self g) /\
  height (fst (resize self g)) = height (measure self g) /\
  canvasWidth (snd (resize self g)) = floor (width (measure self g) * getDpr self g) /\
  canvasHeight (snd (resize self g)) = floor (height (measure self g) * getDpr self g).
Proof.
  rewrite resize_unfold. cbv zeta. cbn [fst snd width height set_stars].
  destruct (mapM_resetStar_canvas (measure self g) (stars self)
              (set_canvas g (floor (width (measure self g) * getDpr (measure self g) g))
                 (floor (height (measure self g) * getDpr (measure self g) g))
                 (getDpr (measure self g) g))) as (Hcw & Hch & _).
  cbv zeta in Hcw, Hch. rewrite Hcw, Hch.
  cbn [canvasWidth canvasHeight set_canvas]. rewrite getDpr_measure.
  repeat split.
Qed.

(** X17: the pixel-ratio cap bounds the backing store.  With a finite
    positive [dprCap] and a non-negative viewport, the canvas backing
    store set by [resize()] is at most the side times the cap, and at most
    the side times the native pixel ratio, in each dimension; the
    effective ratio never exceeds either. *)
Theorem backing_store_capped (self : Starfield) (g : Global) (q : Q) :
  Opt.dprCap (options self) = VNum (Fin q) ->
  0 < q ->
  (fullPage self = true -> 0 <= innerWidth g /\ 0 <= innerHeight g) ->
  let self' := fst (resize self g) in
  let g' := snd (resize self g) in
  getDpr self g <= q /\ getDpr self g <= nativeDpr g /\
  canvasWidth g' <= width self' * q /\
  canvasWidth g' <= width self' * nativeDpr g /\
  canvasHeight g' <= height self' * q /\
  canvasHeight g' <= height self' * nativeDpr g.
Proof.
  intros Hcap Hq Hv. cbv zeta.
  destruct (resize_canvas self g) as (Hw' & Hh' & Hcw & Hch).
  destruct (measure_size self g) as (Hfp & Hct & _ & _).
  rewrite Hcw, Hch, Hw', Hh'.
  assert (Hdpr : getDpr self g = Qmin (nativeDpr g) q).
  { unfold getDpr. rewrite Hcap. cbn [jsnum_gt0]. unfold Qgtb.
    apply Qltb_lt in Hq. now rewrite Hq. }
  assert (Hd1 : getDpr self g <= q) by (rewrite Hdpr; apply Q.le_min_r).
  assert (Hd2 : getDpr self g <= nativeDpr g) by (rewrite Hdpr; apply Q.le_min_l).
  assert (Hwh : 0 <= width (measure self g) /\ 0 <= height (measure self g)).
  { destruct (fullPage self) eqn:E.
    - destruct (Hfp eq_refl) as [-> ->]. now apply Hv.
    - destruct (Hct eq_refl) as (Hw1 & Hh1). split; lra. }
  destruct Hwh as [Hw Hh].
  assert (Hfl : forall side bound, 0 <= side -> getDpr self g <= bound ->
                  floor (side * getDpr self g) <= side * bound).
  { intros side bound Hs Hb. unfold floor.
    apply Qle_trans with (side * getDpr self g); [apply Qfloor_le|].
    rewrite (Qmult_comm side (getDpr self g)), (Qmult_comm side bound).
    now apply Qmult_le_compat_r. }
  repeat split; first [assumption | now apply Hfl].
Qed.

Lemma backing_store_capped_witness :
  let self := fst builtSample in
  let g := snd builtSample in
  getDpr self g <= 2 /\ getDpr self g <= nativeDpr g /\
  canvasWidth (snd (resize self g)) <= width (fst (resize self g)) * 2 /\
  canvasWidth (snd (resize self g)) <= width (fst (resize self g)) * nativeDpr g /\
  canvasHeight (snd (resize self g)) <= height (fst (resize self g)) * 2 /\
  canvasHeight (snd (resize self g)) <= height (fst (resize self g)) * nativeDpr g.
Proof.
  apply (backing_store_capped (fst builtSample) (snd builtSample) 2).
  - reflexivity.
  - reflexivity.
  - intros _. split; vm_compute; discriminate.
Defined.
